(** * The emulator broker: CRUD and lifecycle handlers of [broker/server.go]

    A shallow embedding of the broker server: the registry of emulator
    records ([server.emulators]), the per-record start/stop methods and the
    RPC handlers, followed by the properties of the handlers.

    Conventions of the embedding.
    - Every handler runs under [s.mu] from its first to its last statement
      ([s.mu.Lock(); defer s.mu.Unlock()]), so a handler is one atomic step
      on the registry; a history of the server is a list of calls.
    - A Go pointer that may be nil is an [option]; dereferencing [None]
      is the outcome [Panic].
    - [fmt.Errorf] and [grpc.Errorf] values keep their format string and
      their arguments, unformatted.
    - The request message handed to a handler is never nil (the RPC layer
      allocates it); a message field that is a pointer may be.
    - What the operating system decides during [start] (how a program
      name resolves to a file, the environment, whether a pipe can be
      created) is an explicit input, [world].
    - Logging, and the goroutines that [start] launches ([run] and the two
      output readers), write neither the registry nor a record's [state]
      or [cmd] field; they are left out. *)

From stdpp Require Import base option list strings gmap fin_maps.
From Stdlib Require Import Ascii String.

Local Open Scope string_scope.

(** ** gRPC status codes and Go errors *)

Module codes.
(** [google.golang.org/grpc/codes]. *)
Inductive Code : Set :=
| OK | Canceled | Unknown | InvalidArgument | DeadlineExceeded | NotFound
| AlreadyExists | PermissionDenied | ResourceExhausted | FailedPrecondition
| Aborted | OutOfRange | Unimplemented | Internal | Unavailable | DataLoss
| Unauthenticated.

#[export] Instance Code_eq_dec : EqDecision Code.
Proof. solve_decision. Defined.
End codes.

(** An error value: built by [grpc.Errorf] (it carries a status code), by
    [fmt.Errorf], or handed back by [os/exec] when a pipe cannot be made. *)
Inductive error : Type :=
| rpcError (code : codes.Code) (format : string) (args : list string)
| errorString (format : string) (args : list string)
| osError (reason : string).

Module grpc.
Definition Errorf (c : codes.Code) (format : string) (args : list string) : error :=
  rpcError c format args.

(** [grpc.Code]: the status code of an error; an error that was not made
    by [grpc.Errorf] has code [Unknown]. *)
Definition Code (err : error) : codes.Code :=
  match err with
  | rpcError c _ _ => c
  | errorString _ _ => codes.Unknown
  | osError _ => codes.Unknown
  end.
End grpc.

Module fmt.
Definition Errorf (format : string) (args : list string) : error :=
  errorString format args.
End fmt.

(** ** Outcomes and the state-and-error monad of the handlers *)

(** What a Go call of type [(A, error)] does: return a value with a nil
    error, return an error, or panic on a nil dereference. *)
Inductive result (A : Type) : Type :=
| Ok (a : A)
| Err (err : error)
| Panic.
Arguments Ok {A} a.
Arguments Err {A} err.
Arguments Panic {A}.

Definition is_ok {A} (r : result A) : bool :=
  match r with Ok _ => true | _ => false end.

(** A computation over a mutable [S]: the state it leaves and its outcome.
    An error or a panic ends the computation and keeps the state reached. *)
Definition M (S A : Type) : Type := S -> S * result A.

Definition ret {S A} (a : A) : M S A := fun s => (s, Ok a).

Definition bind {S A B} (m : M S A) (k : A -> M S B) : M S B :=
  fun s =>
    match m s with
    | (s', Ok a) => k a s'
    | (s', Err e) => (s', Err e)
    | (s', Panic) => (s', Panic)
    end.

Definition get {S} : M S S := fun s => (s, Ok s).
Definition put {S} (s' : S) : M S unit := fun _ => (s', Ok tt).
Definition fail {S A} (e : error) : M S A := fun s => (s, Err e).

(** Dereference of a pointer. *)
Definition deref {S A} (p : option A) : M S A :=
  fun s => match p with Some a => (s, Ok a) | None => (s, Panic) end.

(** [if err != nil { return err }]. *)
Definition check {S} (err : option error) : M S unit :=
  fun s => match err with Some e => (s, Err e) | None => (s, Ok tt) end.

Notation "x <- c1 ;; c2" := (bind c1 (fun x => c2))
  (at level 100, c1 at next level, right associativity).
Notation "c1 ;;; c2" := (bind c1 (fun _ => c2))
  (at level 100, right associativity).

(** ** Protocol messages ([google/emulators], generated from broker.proto) *)

Module CommandLine.
Record t : Type := { Path : string; Args : list string }.
End CommandLine.

Module EmulatorSpec.
Record t : Type := {
  Id : string;
  TargetPattern : list string;
  CommandLine : option CommandLine.t;
  StartOnDemand : bool;
  ResolvedTarget : string
}.
End EmulatorSpec.

Module SpecId.
Record t : Type := { Value : string }.
End SpecId.

Module CreateEmulatorSpecRequest.
Record t : Type := { SpecId : string; Spec : option EmulatorSpec.t }.
End CreateEmulatorSpecRequest.

Module ResolveRequest.
Record t : Type := { Target : string }.
End ResolveRequest.

Module ResolveResponse.
Record t : Type := { Target : string }.
End ResolveResponse.

Module ListEmulatorSpecsResponse.
Record t : Type := { Specs : list (option EmulatorSpec.t) }.
End ListEmulatorSpecsResponse.

Module ListEmulatorsResponse.
Record t : Type := { SpecIds : list string }.
End ListEmulatorsResponse.

Module pb.
(** [google/protobuf.Empty]. *)
Inductive Empty : Set := mkEmpty.
End pb.

Definition EMPTY : pb.Empty := pb.mkEmpty.

(** ** The operating system, and the child process handle *)

(** What the operating system answers during one [start]: whether a
    program name is a bare file name ([filepath.Base(name) == name], which
    depends on the platform's separators), the file [exec.LookPath] finds
    for a name ([None] when it returns an error), [os.Environ()], and the
    error (if any) of [cmd.StdoutPipe()] and [cmd.StderrPipe()]. *)
Record world : Type := {
  BaseIsName : string → bool;
  LookPath : string → option string;
  Environ : list string;
  StdoutPipe : option error;
  StderrPipe : option error
}.

Module exec.
(** [os/exec.Cmd], by the fields [start] fills in. *)
Record Cmd : Type := { Path : string; Args : list string; Env : list string }.

(** [exec.Command(name, arg...)]: the argument vector starts with the
    program name as given; the path is the name, replaced for a bare file
    name by the file [LookPath] finds. When that lookup fails the path
    stays the name (Go keeps the lookup error in the handle for a later
    [Run]). *)
Definition Command (w : world) (name : string) (arg : list string) : Cmd :=
  {| Path := if BaseIsName w name
             then match LookPath w name with Some lp => lp | None => name end
             else name;
     Args := name :: arg;
     Env := [] |}.
End exec.

(** ** Emulator records *)

Definition OFFLINE : string := "offline".
Definition STARTING : string := "starting".
Definition ONLINE : string := "online".

Record emulator : Type := {
  spec : option EmulatorSpec.t;
  cmd : option exec.Cmd;
  state : string
}.

Definition newEmulator (spec : option EmulatorSpec.t) : emulator :=
  {| spec := spec; cmd := None; state := OFFLINE |}.

(** [emu.start()]. The record is only written once both pipes exist. *)
Definition start (w : world) : M emulator unit :=
  emu <- get ;;
  if negb (String.eqb (state emu) OFFLINE) then
    sp <- deref (spec emu) ;;
    fail (fmt.Errorf "Emulator %q cannot be started because it is in state %q."
                     [EmulatorSpec.Id sp; state emu])
  else
    sp <- deref (spec emu) ;;
    cmdLine <- deref (EmulatorSpec.CommandLine sp) ;;
    let c := exec.Command w (CommandLine.Path cmdLine) (CommandLine.Args cmdLine) in
    let c := {| exec.Path := exec.Path c; exec.Args := exec.Args c;
                exec.Env := Environ w ++ ["TESTENV_BROKER_ADDRESS=localhost:10000"] |} in
    check (StdoutPipe w) ;;;
    check (StderrPipe w) ;;;
    put {| spec := spec emu; cmd := Some c; state := STARTING |} ;;;
    ret tt.

(** The handle [start] stores for a command line in a given world: what
    [exec.Command] builds, with the environment of the broker followed by
    the broker's address. *)
Definition started_cmd (w : world) (cl : CommandLine.t) : exec.Cmd :=
  {| exec.Path := exec.Path (exec.Command w (CommandLine.Path cl) (CommandLine.Args cl));
     exec.Args := exec.Args (exec.Command w (CommandLine.Path cl) (CommandLine.Args cl));
     exec.Env := Environ w ++ ["TESTENV_BROKER_ADDRESS=localhost:10000"] |}.

(** The guard of [emu.stop()]:
    [emu.state != STARTING || emu.state != ONLINE]. *)
Definition stop_guard (st : string) : bool :=
  negb (String.eqb st STARTING) || negb (String.eqb st ONLINE).

(** [emu.stop()]. Past the guard the child is signalled (that needs the
    handle) and the state is set back; the handle stays. [stop_eq] below
    shows that the guard is never passed. *)
Definition stop : M emulator unit :=
  emu <- get ;;
  if stop_guard (state emu) then
    sp <- deref (spec emu) ;;
    fail (fmt.Errorf "Emulator %q cannot be stopped because it is in state %q."
                     [EmulatorSpec.Id sp; state emu])
  else
    _ <- deref (cmd emu) ;;
    put {| spec := spec emu; cmd := cmd emu; state := OFFLINE |} ;;;
    ret tt.

(** ** The server and its handlers *)

(** [server.emulators]; the mutex [mu] is what makes each handler below one
    atomic step. *)
Record server : Type := { emulators : gmap string emulator }.

Definition New : server := {| emulators := ∅ |}.

(** A method called on the record that [s.emulators[id]] points to: what
    the method writes to the record is seen through the registry. *)
Definition on_emulator {A} (id : string) (emu : emulator) (m : M emulator A)
  : M server A :=
  fun s =>
    let (emu', r) := m emu in
    ({| emulators := <[id := emu']> (emulators s) |}, r).

Definition CreateEmulatorSpec (req : CreateEmulatorSpecRequest.t)
  : M server (option EmulatorSpec.t) :=
  s <- get ;;
  match emulators s !! CreateEmulatorSpecRequest.SpecId req with
  | Some _ =>
      fail (grpc.Errorf codes.AlreadyExists "Emulator spec %q already exists."
                        [CreateEmulatorSpecRequest.SpecId req])
  | None =>
      put {| emulators :=
               <[CreateEmulatorSpecRequest.SpecId req :=
                   newEmulator (CreateEmulatorSpecRequest.Spec req)]> (emulators s) |} ;;;
      ret (CreateEmulatorSpecRequest.Spec req)
  end.

Definition GetEmulatorSpec (specId : SpecId.t) : M server (option EmulatorSpec.t) :=
  s <- get ;;
  match emulators s !! SpecId.Value specId with
  | None =>
      fail (grpc.Errorf codes.NotFound "Emulator spec %q doesn't exist."
                        [SpecId.Value specId])
  | Some emu => ret (spec emu)
  end.

Definition UpdateEmulatorSpec (sp : EmulatorSpec.t) : M server (option EmulatorSpec.t) :=
  s <- get ;;
  match emulators s !! EmulatorSpec.Id sp with
  | None =>
      fail (grpc.Errorf codes.NotFound "Emulator spec %q doesn't exist."
                        [EmulatorSpec.Id sp])
  | Some emu =>
      on_emulator (EmulatorSpec.Id sp) emu
        (e <- get ;; put {| spec := Some sp; cmd := cmd e; state := state e |}) ;;;
      ret (Some sp)
  end.

Definition DeleteEmulatorSpec (specId : SpecId.t) : M server pb.Empty :=
  s <- get ;;
  match emulators s !! SpecId.Value specId with
  | None =>
      fail (grpc.Errorf codes.NotFound "Emulator spec %q doesn't exist."
                        [SpecId.Value specId])
  | Some _ =>
      put {| emulators := delete (SpecId.Value specId) (emulators s) |} ;;;
      ret EMPTY
  end.

(** Go ranges over the map in an unspecified order; the list below is in
    the order [map_to_list] enumerates, one of the orders Go may choose. *)
Definition ListEmulatorSpecs : M server ListEmulatorSpecsResponse.t :=
  s <- get ;;
  ret {| ListEmulatorSpecsResponse.Specs :=
           (fun kv => spec (snd kv)) <$> map_to_list (emulators s) |}.

Definition StartEmulator (w : world) (specId : SpecId.t) : M server pb.Empty :=
  s <- get ;;
  let id := SpecId.Value specId in
  match emulators s !! id with
  | None =>
      fail (grpc.Errorf codes.FailedPrecondition "Emulator %q doesn't exist." [id])
  | Some emu =>
      on_emulator id emu (start w) ;;;
      ret EMPTY
  end.

Definition StopEmulator (specId : SpecId.t) : M server pb.Empty :=
  s <- get ;;
  let id := SpecId.Value specId in
  match emulators s !! id with
  | None =>
      fail (grpc.Errorf codes.FailedPrecondition "Emulator %q doesn't exist." [id])
  | Some emu =>
      on_emulator id emu stop ;;;
      ret EMPTY
  end.

(** Returns [nil, nil]. *)
Definition ListEmulators : M server (option ListEmulatorsResponse.t) :=
  ret None.

(** The matching loop is commented out in the source; what is left is the
    final [return nil, fmt.Errorf("%s not found", req.Target)]. *)
Definition Resolve (req : ResolveRequest.t) : M server (option ResolveResponse.t) :=
  fail (fmt.Errorf "%s not found" [ResolveRequest.Target req]).

(** ** Histories *)

(** One call of the service, with what the operating system answers when
    the call starts a process. *)
Inductive call : Type :=
| CallCreateEmulatorSpec (req : CreateEmulatorSpecRequest.t)
| CallGetEmulatorSpec (specId : SpecId.t)
| CallUpdateEmulatorSpec (sp : EmulatorSpec.t)
| CallDeleteEmulatorSpec (specId : SpecId.t)
| CallListEmulatorSpecs
| CallStartEmulator (w : world) (specId : SpecId.t)
| CallStopEmulator (specId : SpecId.t)
| CallListEmulators
| CallResolve (req : ResolveRequest.t).

(** The registry a call leaves behind. *)
Definition step (c : call) (s : server) : server :=
  match c with
  | CallCreateEmulatorSpec req => fst (CreateEmulatorSpec req s)
  | CallGetEmulatorSpec specId => fst (GetEmulatorSpec specId s)
  | CallUpdateEmulatorSpec sp => fst (UpdateEmulatorSpec sp s)
  | CallDeleteEmulatorSpec specId => fst (DeleteEmulatorSpec specId s)
  | CallListEmulatorSpecs => fst (ListEmulatorSpecs s)
  | CallStartEmulator w specId => fst (StartEmulator w specId s)
  | CallStopEmulator specId => fst (StopEmulator specId s)
  | CallListEmulators => fst (ListEmulators s)
  | CallResolve req => fst (Resolve req s)
  end.

(** The registry after a history of calls, oldest first. *)
Definition run (cs : list call) (s : server) : server :=
  fold_left (fun acc c => step c acc) cs s.

(** ** Sample values (those of the test file) *)

Definition dummySpec : EmulatorSpec.t :=
  {| EmulatorSpec.Id := "foo";
     EmulatorSpec.TargetPattern := ["foo*./"; "bar*./"];
     EmulatorSpec.CommandLine :=
       Some {| CommandLine.Path := "/exepath"; CommandLine.Args := ["arg1"; "arg2"] |};
     EmulatorSpec.StartOnDemand := false;
     EmulatorSpec.ResolvedTarget := "" |}.

Definition dummyReq : CreateEmulatorSpecRequest.t :=
  {| CreateEmulatorSpecRequest.SpecId := "foo";
     CreateEmulatorSpecRequest.Spec := Some dummySpec |}.

(** A world in which both pipes can be created; the one bare program name
    it knows is ["sh"], found at ["/bin/sh"]. *)
Definition fine : world :=
  {| BaseIsName := fun name => String.eqb name "sh";
     LookPath := fun name => if String.eqb name "sh" then Some "/bin/sh" else None;
     Environ := ["HOME=/root"]; StdoutPipe := None; StderrPipe := None |}.

Definition s_foo : server := run [CallCreateEmulatorSpec dummyReq] New.

Definition s_foo_started : server :=
  run [CallCreateEmulatorSpec dummyReq; CallStartEmulator fine {| SpecId.Value := "foo" |}] New.

(** ** The methods of a record *)

Section Methods.

(** The two disjuncts of the guard cannot both fail: no string is both
    ["starting"] and ["online"]. *)
Lemma stop_guard_true (st : string) : stop_guard st = true.
Proof.
  unfold stop_guard.
  destruct (String.eqb_spec st STARTING) as [-> | _]; [reflexivity | ].
  apply orb_true_l.
Qed.

(** So [stop] always takes the error branch and writes nothing. *)
Lemma stop_eq (emu : emulator) :
  stop emu =
  (emu, match spec emu with
        | Some sp =>
            Err (fmt.Errorf "Emulator %q cannot be stopped because it is in state %q."
                            [EmulatorSpec.Id sp; state emu])
        | None => Panic
        end).
Proof.
  unfold stop, bind, get. simpl.
  rewrite stop_guard_true.
  destruct (spec emu); reflexivity.
Qed.

(** [start] either leaves the record as it was, or succeeds from
    [OFFLINE] and leaves it [STARTING] with a handle. *)
Lemma start_cases (w : world) (emu : emulator) :
  (∃ r, start w emu = (emu, r) ∧ is_ok r = false) ∨
  (state emu = OFFLINE ∧
   ∃ c, start w emu = ({| spec := spec emu; cmd := Some c; state := STARTING |}, Ok tt)).
Proof.
  unfold start, bind, get, deref, check, put, ret, fail. simpl.
  destruct (String.eqb_spec (state emu) OFFLINE) as [Hoff | Hne]; simpl.
  - destruct (spec emu) as [sp | ]; [ | left; eauto].
    destruct (EmulatorSpec.CommandLine sp) as [cl | ]; [ | left; eauto].
    destruct (StdoutPipe w); [left; eauto | ].
    destruct (StderrPipe w); [left; eauto | ].
    right. eauto.
  - left. destruct (spec emu); eauto.
Qed.

Lemma start_not_offline (w : world) (emu : emulator) (sp : EmulatorSpec.t) :
  state emu ≠ OFFLINE →
  spec emu = Some sp →
  start w emu =
  (emu, Err (fmt.Errorf "Emulator %q cannot be started because it is in state %q."
                        [EmulatorSpec.Id sp; state emu])).
Proof.
  intros Hne Hsp.
  unfold start, bind, get, deref, fail. simpl.
  destruct (String.eqb_spec (state emu) OFFLINE) as [Hoff | _]; [contradiction | ].
  simpl. rewrite Hsp. reflexivity.
Qed.

End Methods.

(** ** The handlers, case by case *)

Section Handlers.

Implicit Types (s : server) (emu : emulator).

Lemma server_eta s : {| emulators := emulators s |} = s.
Proof. destruct s; reflexivity. Qed.

(** A method that leaves its record alone leaves the registry alone. *)
Lemma on_emulator_unchanged {A} s (id : string) emu (m : M emulator A) (r : result A) :
  emulators s !! id = Some emu →
  m emu = (emu, r) →
  on_emulator id emu m s = (s, r).
Proof.
  intros Hlook Hm. unfold on_emulator. rewrite Hm.
  rewrite insert_id by exact Hlook. rewrite server_eta. reflexivity.
Qed.

Lemma CreateEmulatorSpec_fresh s (req : CreateEmulatorSpecRequest.t) :
  emulators s !! CreateEmulatorSpecRequest.SpecId req = None →
  CreateEmulatorSpec req s =
  ({| emulators := <[CreateEmulatorSpecRequest.SpecId req :=
                       newEmulator (CreateEmulatorSpecRequest.Spec req)]> (emulators s) |},
   Ok (CreateEmulatorSpecRequest.Spec req)).
Proof.
  intros Hnone. unfold CreateEmulatorSpec, bind, get. simpl.
  rewrite Hnone. reflexivity.
Qed.

Lemma CreateEmulatorSpec_taken s (req : CreateEmulatorSpecRequest.t) emu :
  emulators s !! CreateEmulatorSpecRequest.SpecId req = Some emu →
  CreateEmulatorSpec req s =
  (s, Err (grpc.Errorf codes.AlreadyExists "Emulator spec %q already exists."
                       [CreateEmulatorSpecRequest.SpecId req])).
Proof.
  intros Hsome. unfold CreateEmulatorSpec, bind, get. simpl.
  rewrite Hsome. reflexivity.
Qed.

Lemma GetEmulatorSpec_found s (specId : SpecId.t) emu :
  emulators s !! SpecId.Value specId = Some emu →
  GetEmulatorSpec specId s = (s, Ok (spec emu)).
Proof.
  intros Hsome. unfold GetEmulatorSpec, bind, get. simpl.
  rewrite Hsome. reflexivity.
Qed.

Lemma GetEmulatorSpec_missing s (specId : SpecId.t) :
  emulators s !! SpecId.Value specId = None →
  GetEmulatorSpec specId s =
  (s, Err (grpc.Errorf codes.NotFound "Emulator spec %q doesn't exist."
                       [SpecId.Value specId])).
Proof.
  intros Hnone. unfold GetEmulatorSpec, bind, get. simpl.
  rewrite Hnone. reflexivity.
Qed.

Lemma UpdateEmulatorSpec_found s (sp : EmulatorSpec.t) emu :
  emulators s !! EmulatorSpec.Id sp = Some emu →
  UpdateEmulatorSpec sp s =
  ({| emulators := <[EmulatorSpec.Id sp :=
                       {| spec := Some sp; cmd := cmd emu; state := state emu |}]>
                     (emulators s) |},
   Ok (Some sp)).
Proof.
  intros Hsome. unfold UpdateEmulatorSpec, bind, get. simpl.
  rewrite Hsome. reflexivity.
Qed.

Lemma UpdateEmulatorSpec_missing s (sp : EmulatorSpec.t) :
  emulators s !! EmulatorSpec.Id sp = None →
  UpdateEmulatorSpec sp s =
  (s, Err (grpc.Errorf codes.NotFound "Emulator spec %q doesn't exist."
                       [EmulatorSpec.Id sp])).
Proof.
  intros Hnone. unfold UpdateEmulatorSpec, bind, get. simpl.
  rewrite Hnone. reflexivity.
Qed.

Lemma DeleteEmulatorSpec_found s (specId : SpecId.t) emu :
  emulators s !! SpecId.Value specId = Some emu →
  DeleteEmulatorSpec specId s =
  ({| emulators := delete (SpecId.Value specId) (emulators s) |}, Ok EMPTY).
Proof.
  intros Hsome. unfold DeleteEmulatorSpec, bind, get. simpl.
  rewrite Hsome. reflexivity.
Qed.

Lemma DeleteEmulatorSpec_missing s (specId : SpecId.t) :
  emulators s !! SpecId.Value specId = None →
  DeleteEmulatorSpec specId s =
  (s, Err (grpc.Errorf codes.NotFound "Emulator spec %q doesn't exist."
                       [SpecId.Value specId])).
Proof.
  intros Hnone. unfold DeleteEmulatorSpec, bind, get. simpl.
  rewrite Hnone. reflexivity.
Qed.

Lemma StartEmulator_missing (w : world) s (specId : SpecId.t) :
  emulators s !! SpecId.Value specId = None →
  StartEmulator w specId s =
  (s, Err (grpc.Errorf codes.FailedPrecondition "Emulator %q doesn't exist."
                       [SpecId.Value specId])).
Proof.
  intros Hnone. unfold StartEmulator, bind, get. simpl.
  rewrite Hnone. reflexivity.
Qed.

Lemma StopEmulator_missing s (specId : SpecId.t) :
  emulators s !! SpecId.Value specId = None →
  StopEmulator specId s =
  (s, Err (grpc.Errorf codes.FailedPrecondition "Emulator %q doesn't exist."
                       [SpecId.Value specId])).
Proof.
  intros Hnone. unfold StopEmulator, bind, get. simpl.
  rewrite Hnone. reflexivity.
Qed.

(** On a registered record [StopEmulator] hands back what [stop] answers,
    and the registry is the one it started from. *)
Lemma StopEmulator_registered s (specId : SpecId.t) emu :
  emulators s !! SpecId.Value specId = Some emu →
  StopEmulator specId s =
  (s, match spec emu with
      | Some sp =>
          Err (fmt.Errorf "Emulator %q cannot be stopped because it is in state %q."
                          [EmulatorSpec.Id sp; state emu])
      | None => Panic
      end).
Proof.
  intros Hsome. unfold StopEmulator. unfold bind at 1. unfold get at 1. simpl.
  rewrite Hsome. unfold bind.
  rewrite (on_emulator_unchanged s _ emu stop _ Hsome (stop_eq emu)).
  destruct (spec emu); reflexivity.
Qed.

Lemma Resolve_eq s (req : ResolveRequest.t) :
  Resolve req s = (s, Err (fmt.Errorf "%s not found" [ResolveRequest.Target req])).
Proof. reflexivity. Qed.

End Handlers.

(** ** The lifecycle invariant of the registry *)

(** A record is either [OFFLINE] without a handle, or [STARTING] with one. *)
Definition lifecycle_inv (emu : emulator) : Prop :=
  (state emu = OFFLINE ∧ cmd emu = None) ∨
  (state emu = STARTING ∧ is_Some (cmd emu)).

Definition registry_inv (s : server) : Prop :=
  map_Forall (fun _ emu => lifecycle_inv emu) (emulators s).

Section Invariant.

Implicit Types (s : server) (emu : emulator).

Lemma newEmulator_inv (sp : option EmulatorSpec.t) : lifecycle_inv (newEmulator sp).
Proof. left. split; reflexivity. Qed.

Lemma registry_inv_New : registry_inv New.
Proof. apply map_Forall_empty. Qed.

Lemma registry_inv_insert s (id : string) emu :
  registry_inv s → lifecycle_inv emu →
  registry_inv {| emulators := <[id := emu]> (emulators s) |}.
Proof. intros Hs Hemu. apply map_Forall_insert_2; assumption. Qed.

Lemma CreateEmulatorSpec_inv (req : CreateEmulatorSpecRequest.t) s :
  registry_inv s → registry_inv (fst (CreateEmulatorSpec req s)).
Proof.
  intros Hs.
  destruct (emulators s !! CreateEmulatorSpecRequest.SpecId req) as [emu | ] eqn:Hlook.
  - rewrite (CreateEmulatorSpec_taken _ _ _ Hlook). exact Hs.
  - rewrite (CreateEmulatorSpec_fresh _ _ Hlook). simpl.
    apply registry_inv_insert; [exact Hs | apply newEmulator_inv].
Qed.

Lemma GetEmulatorSpec_frame (specId : SpecId.t) s :
  fst (GetEmulatorSpec specId s) = s.
Proof.
  destruct (emulators s !! SpecId.Value specId) as [emu | ] eqn:Hlook.
  - rewrite (GetEmulatorSpec_found _ _ _ Hlook). reflexivity.
  - rewrite (GetEmulatorSpec_missing _ _ Hlook). reflexivity.
Qed.

(** An update replaces the spec and keeps the state and the handle. *)
Lemma UpdateEmulatorSpec_inv (sp : EmulatorSpec.t) s :
  registry_inv s → registry_inv (fst (UpdateEmulatorSpec sp s)).
Proof.
  intros Hs.
  destruct (emulators s !! EmulatorSpec.Id sp) as [emu | ] eqn:Hlook.
  - rewrite (UpdateEmulatorSpec_found _ _ _ Hlook). simpl.
    apply registry_inv_insert; [exact Hs | ].
    exact (Hs _ _ Hlook).
  - rewrite (UpdateEmulatorSpec_missing _ _ Hlook). exact Hs.
Qed.

Lemma DeleteEmulatorSpec_inv (specId : SpecId.t) s :
  registry_inv s → registry_inv (fst (DeleteEmulatorSpec specId s)).
Proof.
  intros Hs.
  destruct (emulators s !! SpecId.Value specId) as [emu | ] eqn:Hlook.
  - rewrite (DeleteEmulatorSpec_found _ _ _ Hlook). simpl.
    apply map_Forall_delete. exact Hs.
  - rewrite (DeleteEmulatorSpec_missing _ _ Hlook). exact Hs.
Qed.

Lemma StartEmulator_inv (w : world) (specId : SpecId.t) s :
  registry_inv s → registry_inv (fst (StartEmulator w specId s)).
Proof.
  intros Hs.
  destruct (emulators s !! SpecId.Value specId) as [emu | ] eqn:Hlook.
  - unfold StartEmulator. unfold bind at 1. unfold get at 1. simpl.
    rewrite Hlook. unfold bind.
    destruct (start_cases w emu) as [(r & Hrun & Hr) | (Hoff & c & Hrun)].
    + rewrite (on_emulator_unchanged s _ emu _ r Hlook Hrun).
      destruct r; simpl; exact Hs.
    + unfold on_emulator. rewrite Hrun. simpl.
      apply registry_inv_insert; [exact Hs | ].
      right. simpl. split; [reflexivity | eauto].
  - rewrite (StartEmulator_missing _ _ _ Hlook). exact Hs.
Qed.

Lemma StopEmulator_frame (specId : SpecId.t) s :
  fst (StopEmulator specId s) = s.
Proof.
  destruct (emulators s !! SpecId.Value specId) as [emu | ] eqn:Hlook.
  - rewrite (StopEmulator_registered _ _ _ Hlook). reflexivity.
  - rewrite (StopEmulator_missing _ _ Hlook). reflexivity.
Qed.

Lemma step_inv (c : call) s : registry_inv s → registry_inv (step c s).
Proof.
  intros Hs. destruct c; simpl.
  - apply CreateEmulatorSpec_inv, Hs.
  - rewrite GetEmulatorSpec_frame. exact Hs.
  - apply UpdateEmulatorSpec_inv, Hs.
  - apply DeleteEmulatorSpec_inv, Hs.
  - exact Hs.
  - apply StartEmulator_inv, Hs.
  - rewrite StopEmulator_frame. exact Hs.
  - exact Hs.
  - exact Hs.
Qed.

Lemma run_inv (cs : list call) : ∀ s, registry_inv s → registry_inv (run cs s).
Proof.
  induction cs as [ | c cs IH]; intros s Hs; simpl.
  - exact Hs.
  - apply IH, step_inv, Hs.
Qed.

(** Every registry the server can reach from [New()] satisfies the
    invariant. *)
Lemma reachable_inv (cs : list call) : registry_inv (run cs New).
Proof. apply run_inv, registry_inv_New. Qed.

End Invariant.

(** ** Properties of the lifecycle *)

(** The record of ["foo"] once [StartEmulator] has succeeded on it. *)
Definition foo_started : emulator :=
  {| spec := Some dummySpec;
     cmd := Some {| exec.Path := "/exepath";
                    exec.Args := ["/exepath"; "arg1"; "arg2"];
                    exec.Env := ["HOME=/root"; "TESTENV_BROKER_ADDRESS=localhost:10000"] |};
     state := STARTING |}.

(** C3: in every registry reachable from [New()] by calls of the service,
    a record is [OFFLINE] exactly when it holds no child process handle. *)
Theorem offline_iff_no_child_handle (cs : list call) (id : string) (emu : emulator) :
  emulators (run cs New) !! id = Some emu →
  state emu = OFFLINE ↔ cmd emu = None.
Proof.
  intros Hlook.
  destruct (reachable_inv cs _ _ Hlook) as [[Hst Hcmd] | [Hst [c Hcmd]]].
  - split; intros _; assumption.
  - split.
    + intros Hoff. rewrite Hst in Hoff. discriminate Hoff.
    + intros Hnone. rewrite Hcmd in Hnone. discriminate Hnone.
Qed.

Lemma offline_iff_no_child_handle_witness :
  emulators s_foo_started !! "foo" = Some foo_started ∧
  (state foo_started = OFFLINE ↔ cmd foo_started = None).
Proof.
  assert (Hlook : emulators s_foo_started !! "foo" = Some foo_started)
    by (vm_compute; reflexivity).
  split; [exact Hlook | ].
  exact (offline_iff_no_child_handle
           [CallCreateEmulatorSpec dummyReq;
            CallStartEmulator fine {| SpecId.Value := "foo" |}]
           "foo" foo_started Hlook).
Defined.

(** C10: no call of the service puts a record [ONLINE]: in every registry
    reachable from [New()], each record is [OFFLINE] or [STARTING]. *)
Theorem reachable_states_offline_or_starting
    (cs : list call) (id : string) (emu : emulator) :
  emulators (run cs New) !! id = Some emu →
  state emu ≠ ONLINE ∧ (state emu = OFFLINE ∨ state emu = STARTING).
Proof.
  intros Hlook.
  destruct (reachable_inv cs _ _ Hlook) as [[Hst _] | [Hst _]];
    rewrite Hst; split; try discriminate; auto.
Qed.

Lemma reachable_states_offline_or_starting_witness :
  emulators s_foo !! "foo" = Some (newEmulator (Some dummySpec)) ∧
  state (newEmulator (Some dummySpec)) ≠ ONLINE ∧
  (state (newEmulator (Some dummySpec)) = OFFLINE ∨
   state (newEmulator (Some dummySpec)) = STARTING).
Proof.
  assert (Hlook : emulators s_foo !! "foo" = Some (newEmulator (Some dummySpec)))
    by (vm_compute; reflexivity).
  split; [exact Hlook | ].
  exact (reachable_states_offline_or_starting
           [CallCreateEmulatorSpec dummyReq] "foo" _ Hlook).
Defined.

(** A request that carries no spec at all, and the registry that holds
    its record. *)
Definition bareReq : CreateEmulatorSpecRequest.t :=
  {| CreateEmulatorSpecRequest.SpecId := "bare"; CreateEmulatorSpecRequest.Spec := None |}.

Definition s_bare : server := run [CallCreateEmulatorSpec bareReq] New.

(** The stop operation returns an error on every registered record and
    leaves the registry as it was. *)
Definition stop_returns_error_at (s : server) (specId : SpecId.t) : Prop :=
  ∀ emu, emulators s !! SpecId.Value specId = Some emu →
    (∃ e, stop emu = (emu, Err e)) ∧
    (∃ e, StopEmulator specId s = (s, Err e)).

(** C9, counterexample: the record of a request without a spec. Building
    the error of the guard reads [emu.spec.Id], so [stop] does not return
    an error there: it panics. *)
Lemma stop_on_bare_record_panics :
  ¬ stop_returns_error_at s_bare {| SpecId.Value := "bare" |}.
Proof.
  intros Hclaim.
  assert (Hlook : emulators s_bare !! SpecId.Value {| SpecId.Value := "bare" |}
                  = Some (newEmulator None))
    by (vm_compute; reflexivity).
  destruct (Hclaim _ Hlook) as [_ [e Hstop]].
  rewrite (StopEmulator_registered _ _ _ Hlook) in Hstop.
  discriminate Hstop.
Qed.

(** C9, as the code has it: on a registered record, whatever its state, the
    guard of [stop] holds, so [stop] and [StopEmulator] never succeed and
    leave the record and the registry as they were. They return the error
    ["Emulator %q cannot be stopped ..."] when the record has a spec, and
    panic on the nil spec, while building that error, when it has none. *)
Theorem stop_never_transitions (s : server) (specId : SpecId.t) (emu : emulator) :
  emulators s !! SpecId.Value specId = Some emu →
  stop_guard (state emu) = true ∧
  fst (stop emu) = emu ∧ is_ok (snd (stop emu)) = false ∧
  fst (StopEmulator specId s) = s ∧ is_ok (snd (StopEmulator specId s)) = false ∧
  (∀ sp, spec emu = Some sp →
    stop emu =
      (emu, Err (fmt.Errorf "Emulator %q cannot be stopped because it is in state %q."
                            [EmulatorSpec.Id sp; state emu])) ∧
    StopEmulator specId s =
      (s, Err (fmt.Errorf "Emulator %q cannot be stopped because it is in state %q."
                          [EmulatorSpec.Id sp; state emu]))) ∧
  (spec emu = None → stop emu = (emu, Panic) ∧ StopEmulator specId s = (s, Panic)).
Proof.
  intros Hlook.
  rewrite (StopEmulator_registered _ _ _ Hlook), stop_eq. simpl.
  split; [apply stop_guard_true | ].
  split; [reflexivity | ].
  split; [destruct (spec emu); reflexivity | ].
  split; [reflexivity | ].
  split; [destruct (spec emu); reflexivity | ].
  split.
  - intros sp Hsp. rewrite Hsp. split; reflexivity.
  - intros Hnone. rewrite Hnone. split; reflexivity.
Qed.

Lemma stop_never_transitions_witness :
  emulators s_foo_started !! "foo" = Some foo_started ∧
  StopEmulator {| SpecId.Value := "foo" |} s_foo_started =
    (s_foo_started,
     Err (fmt.Errorf "Emulator %q cannot be stopped because it is in state %q."
                     ["foo"; "starting"])).
Proof.
  assert (Hlook : emulators s_foo_started !! SpecId.Value {| SpecId.Value := "foo" |}
                  = Some foo_started)
    by (vm_compute; reflexivity).
  split; [exact Hlook | ].
  destruct (stop_never_transitions s_foo_started {| SpecId.Value := "foo" |}
              foo_started Hlook) as (_ & _ & _ & _ & _ & Herr & _).
  exact (proj2 (Herr dummySpec eq_refl)).
Defined.

(** ** Properties of creation, lookup and update *)

(** C8: after a successful [CreateEmulatorSpec], [GetEmulatorSpec] on the
    id of the request succeeds and returns the submitted spec, which is the
    spec the registry stores; when the spec's own id is the id of the
    request, a get on the spec's id returns a spec with that id. *)
Theorem create_get_roundtrip
    (s s' : server) (req : CreateEmulatorSpecRequest.t) (r : option EmulatorSpec.t) :
  CreateEmulatorSpec req s = (s', Ok r) →
  r = CreateEmulatorSpecRequest.Spec req ∧
  GetEmulatorSpec {| SpecId.Value := CreateEmulatorSpecRequest.SpecId req |} s'
    = (s', Ok (CreateEmulatorSpecRequest.Spec req)) ∧
  emulators s' !! CreateEmulatorSpecRequest.SpecId req
    = Some (newEmulator (CreateEmulatorSpecRequest.Spec req)) ∧
  ∀ x, CreateEmulatorSpecRequest.Spec req = Some x →
       EmulatorSpec.Id x = CreateEmulatorSpecRequest.SpecId req →
       ∃ got, GetEmulatorSpec {| SpecId.Value := EmulatorSpec.Id x |} s' = (s', Ok (Some got)) ∧
              EmulatorSpec.Id got = EmulatorSpec.Id x ∧ got = x.
Proof.
  intros Hcreate.
  destruct (emulators s !! CreateEmulatorSpecRequest.SpecId req) as [emu | ] eqn:Hlook.
  - rewrite (CreateEmulatorSpec_taken _ _ _ Hlook) in Hcreate. discriminate Hcreate.
  - rewrite (CreateEmulatorSpec_fresh _ _ Hlook) in Hcreate.
    injection Hcreate as Hs' Hr. subst s' r.
    assert (Hnew : emulators
              {| emulators := <[CreateEmulatorSpecRequest.SpecId req :=
                                  newEmulator (CreateEmulatorSpecRequest.Spec req)]>
                                (emulators s) |}
              !! CreateEmulatorSpecRequest.SpecId req
            = Some (newEmulator (CreateEmulatorSpecRequest.Spec req)))
      by (simpl; apply lookup_insert_eq).
    split; [reflexivity | ].
    split; [exact (GetEmulatorSpec_found _ {| SpecId.Value := _ |} _ Hnew) | ].
    split; [exact Hnew | ].
    intros x Hx Hid. exists x.
    rewrite Hid.
    rewrite (GetEmulatorSpec_found _ {| SpecId.Value := _ |} _ Hnew). simpl.
    rewrite Hx. auto.
Qed.

Lemma create_get_roundtrip_witness :
  CreateEmulatorSpec dummyReq New = (s_foo, Ok (Some dummySpec)) ∧
  GetEmulatorSpec {| SpecId.Value := "foo" |} s_foo = (s_foo, Ok (Some dummySpec)).
Proof.
  assert (Hcreate : CreateEmulatorSpec dummyReq New = (s_foo, Ok (Some dummySpec)))
    by (vm_compute; reflexivity).
  split; [exact Hcreate | ].
  destruct (create_get_roundtrip New s_foo dummyReq (Some dummySpec) Hcreate)
    as (_ & Hget & _).
  exact Hget.
Defined.

(** The registry keys a record by the id of the request, not by the id
    inside the spec: when the two differ, the spec's own id finds nothing. *)
Example create_keyed_by_request_id :
  let req := {| CreateEmulatorSpecRequest.SpecId := "foo";
                CreateEmulatorSpecRequest.Spec :=
                  Some {| EmulatorSpec.Id := "bar";
                          EmulatorSpec.TargetPattern := [];
                          EmulatorSpec.CommandLine := None;
                          EmulatorSpec.StartOnDemand := false;
                          EmulatorSpec.ResolvedTarget := "" |} |} in
  let s' := fst (CreateEmulatorSpec req New) in
  snd (CreateEmulatorSpec req New) = Ok (CreateEmulatorSpecRequest.Spec req) ∧
  GetEmulatorSpec {| SpecId.Value := "foo" |} s' = (s', Ok (CreateEmulatorSpecRequest.Spec req)) ∧
  GetEmulatorSpec {| SpecId.Value := "bar" |} s' =
    (s', Err (grpc.Errorf codes.NotFound "Emulator spec %q doesn't exist." ["bar"])).
Proof. vm_compute. auto. Qed.

(** *** Re-creation *)

(** Deep equality of two specs, the order of the patterns apart. *)
Definition spec_deep_equal (a b : option EmulatorSpec.t) : Prop :=
  match a, b with
  | None, None => True
  | Some x, Some y =>
      EmulatorSpec.Id x = EmulatorSpec.Id y ∧
      EmulatorSpec.TargetPattern x ≡ₚ EmulatorSpec.TargetPattern y ∧
      EmulatorSpec.CommandLine x = EmulatorSpec.CommandLine y ∧
      EmulatorSpec.StartOnDemand x = EmulatorSpec.StartOnDemand y ∧
      EmulatorSpec.ResolvedTarget x = EmulatorSpec.ResolvedTarget y
  | _, _ => False
  end.

Lemma spec_deep_equal_refl (a : option EmulatorSpec.t) : spec_deep_equal a a.
Proof. destruct a; simpl; auto. Qed.

(** Idempotent creation as the specification words it: on an id that is
    taken, a deep-equal value is accepted as a no-op and a different one is
    refused with [AlreadyExists]. *)
Definition create_idempotent_at (s : server) (req : CreateEmulatorSpecRequest.t) : Prop :=
  ∀ emu, emulators s !! CreateEmulatorSpecRequest.SpecId req = Some emu →
    (spec_deep_equal (spec emu) (CreateEmulatorSpecRequest.Spec req) →
       ∃ r, CreateEmulatorSpec req s = (s, Ok r)) ∧
    (¬ spec_deep_equal (spec emu) (CreateEmulatorSpecRequest.Spec req) →
       ∃ f a, CreateEmulatorSpec req s = (s, Err (rpcError codes.AlreadyExists f a))).

(** C5, counterexample: creating ["foo"] twice with the very same request,
    the second call is refused, it is not a no-op. *)
Lemma create_twice_not_idempotent : ¬ create_idempotent_at s_foo dummyReq.
Proof.
  intros Hidem.
  assert (Hlook : emulators s_foo !! CreateEmulatorSpecRequest.SpecId dummyReq
                  = Some (newEmulator (Some dummySpec)))
    by (vm_compute; reflexivity).
  destruct (Hidem _ Hlook) as [Hsame _].
  destruct (Hsame (spec_deep_equal_refl _)) as [r Hok].
  rewrite (CreateEmulatorSpec_taken _ _ _ Hlook) in Hok.
  discriminate Hok.
Qed.

(** C5, as the code has it: creation on an id that is taken is refused with
    [AlreadyExists] and the registry is left as it was, whether or not the
    submitted spec equals the stored one. *)
Theorem create_on_taken_id_already_exists
    (s : server) (req : CreateEmulatorSpecRequest.t) (emu : emulator) :
  emulators s !! CreateEmulatorSpecRequest.SpecId req = Some emu →
  ∃ err, CreateEmulatorSpec req s = (s, Err err) ∧
         grpc.Code err = codes.AlreadyExists ∧
         err = grpc.Errorf codes.AlreadyExists "Emulator spec %q already exists."
                           [CreateEmulatorSpecRequest.SpecId req].
Proof.
  intros Hlook.
  exists (grpc.Errorf codes.AlreadyExists "Emulator spec %q already exists."
                      [CreateEmulatorSpecRequest.SpecId req]).
  split; [exact (CreateEmulatorSpec_taken _ _ _ Hlook) | split; reflexivity].
Qed.

Lemma create_on_taken_id_already_exists_witness :
  emulators s_foo !! "foo" = Some (newEmulator (Some dummySpec)) ∧
  ∃ err, CreateEmulatorSpec dummyReq s_foo = (s_foo, Err err) ∧
         grpc.Code err = codes.AlreadyExists ∧
         err = grpc.Errorf codes.AlreadyExists "Emulator spec %q already exists." ["foo"].
Proof.
  assert (Hlook : emulators s_foo !! CreateEmulatorSpecRequest.SpecId dummyReq
                  = Some (newEmulator (Some dummySpec)))
    by (vm_compute; reflexivity).
  split; [exact Hlook | ].
  exact (create_on_taken_id_already_exists s_foo dummyReq _ Hlook).
Defined.

(** *** Validation *)

(** The characters the specification allows in an id: letters, digits,
    and [.], [_], [-]. *)
Definition id_char (c : ascii) : bool :=
  let n := nat_of_ascii c in
  (Nat.leb 65 n && Nat.leb n 90) || (Nat.leb 97 n && Nat.leb n 122)
  || (Nat.leb 48 n && Nat.leb n 57)
  || Nat.eqb n 46 || Nat.eqb n 95 || Nat.eqb n 45.

(** A well-formed id in the specification's sense: not empty, allowed
    characters only. *)
Definition well_formed_id (id : string) : bool :=
  negb (String.eqb id "") && forallb id_char (list_ascii_of_string id).

(** The request carries no start command. *)
Definition lacks_command (req : CreateEmulatorSpecRequest.t) : bool :=
  match CreateEmulatorSpecRequest.Spec req with
  | None => true
  | Some sp =>
      match EmulatorSpec.CommandLine sp with None => true | Some _ => false end
  end.

(** Validation as the specification words it, for the two conditions the
    registry could check without a regular-expression engine: a request
    with a malformed id or without a command is refused with
    [InvalidArgument] and nothing is stored. *)
Definition create_validates_at (s : server) (req : CreateEmulatorSpecRequest.t) : Prop :=
  well_formed_id (CreateEmulatorSpecRequest.SpecId req) = false ∨ lacks_command req = true →
  ∃ f a, CreateEmulatorSpec req s = (s, Err (rpcError codes.InvalidArgument f a)).

(** A request with the id ["my/mistake"], the pattern ["["] and no command. *)
Definition badReq : CreateEmulatorSpecRequest.t :=
  {| CreateEmulatorSpecRequest.SpecId := "my/mistake";
     CreateEmulatorSpecRequest.Spec :=
       Some {| EmulatorSpec.Id := "my/mistake";
               EmulatorSpec.TargetPattern := ["["];
               EmulatorSpec.CommandLine := None;
               EmulatorSpec.StartOnDemand := false;
               EmulatorSpec.ResolvedTarget := "" |} |}.

(** The empty registry accepts it. *)
Lemma create_bad_request_accepted : ¬ create_validates_at New badReq.
Proof.
  intros Hval.
  destruct Hval as (f & a & Hrej).
  - left. vm_compute. reflexivity.
  - vm_compute in Hrej. discriminate Hrej.
Qed.

(** What [CreateEmulatorSpec] does at present: it checks nothing but the
    id being free, so a request on a free id is stored whatever it holds,
    and the only error it builds is [AlreadyExists]. *)
Lemma create_on_free_id_accepts_anything
    (s : server) (req : CreateEmulatorSpecRequest.t) :
  emulators s !! CreateEmulatorSpecRequest.SpecId req = None →
  CreateEmulatorSpec req s =
    ({| emulators := <[CreateEmulatorSpecRequest.SpecId req :=
                         newEmulator (CreateEmulatorSpecRequest.Spec req)]> (emulators s) |},
     Ok (CreateEmulatorSpecRequest.Spec req)) ∧
  ∀ s0 err, snd (CreateEmulatorSpec req s0) = Err err →
            grpc.Code err = codes.AlreadyExists.
Proof.
  intros Hfree. split.
  - exact (CreateEmulatorSpec_fresh _ _ Hfree).
  - intros s0 err Herr.
    destruct (emulators s0 !! CreateEmulatorSpecRequest.SpecId req) as [emu | ] eqn:Hlook.
    + rewrite (CreateEmulatorSpec_taken _ _ _ Hlook) in Herr. simpl in Herr.
      injection Herr as <-. reflexivity.
    + rewrite (CreateEmulatorSpec_fresh _ _ Hlook) in Herr. discriminate Herr.
Qed.

(** C7: the request of [TestCreateEmulator_WithInvalidEmulatorId] and
    [TestCreateEmulator_WithInvalidTargetPattern] (id ["my/mistake"],
    pattern ["["]), without a command: the id is malformed and the command
    is missing, yet creation on the empty registry succeeds and stores the
    spec; and no creation ever fails with [InvalidArgument]. *)
Theorem CreateEmulatorSpec_accepts_invalid_request :
  well_formed_id (CreateEmulatorSpecRequest.SpecId badReq) = false ∧
  lacks_command badReq = true ∧
  CreateEmulatorSpec badReq New =
    ({| emulators := <["my/mistake" := newEmulator (CreateEmulatorSpecRequest.Spec badReq)]> ∅ |},
     Ok (CreateEmulatorSpecRequest.Spec badReq)) ∧
  ∀ s req err, snd (CreateEmulatorSpec req s) = Err err →
               grpc.Code err ≠ codes.InvalidArgument.
Proof.
  assert (Hfree : emulators New !! CreateEmulatorSpecRequest.SpecId badReq = None)
    by reflexivity.
  split; [vm_compute; reflexivity | ].
  split; [reflexivity | ].
  split; [exact (proj1 (create_on_free_id_accepts_anything New badReq Hfree)) | ].
  intros s req err Herr.
  rewrite (proj2 (create_on_free_id_accepts_anything New req
                    ltac:(reflexivity)) s err Herr).
  discriminate.
Qed.

(** *** Update *)

(** Merging as the specification words it: after a successful update the
    stored patterns contain the patterns stored before and those of the
    request. *)
Definition update_merges_at (s : server) (sp : EmulatorSpec.t) : Prop :=
  ∀ emu old s' r,
    emulators s !! EmulatorSpec.Id sp = Some emu →
    spec emu = Some old →
    UpdateEmulatorSpec sp s = (s', Ok r) →
    ∃ emu' new,
      emulators s' !! EmulatorSpec.Id sp = Some emu' ∧
      spec emu' = Some new ∧
      ∀ p, p ∈ EmulatorSpec.TargetPattern old ∨ p ∈ EmulatorSpec.TargetPattern sp →
           p ∈ EmulatorSpec.TargetPattern new.

(** [dummySpec] with the single pattern ["newPattern"]. *)
Definition newPatternSpec : EmulatorSpec.t :=
  {| EmulatorSpec.Id := "foo";
     EmulatorSpec.TargetPattern := ["newPattern"];
     EmulatorSpec.CommandLine := EmulatorSpec.CommandLine dummySpec;
     EmulatorSpec.StartOnDemand := false;
     EmulatorSpec.ResolvedTarget := "" |}.

(** Updating ["foo"] with it drops the two patterns stored before. *)
Lemma update_drops_stored_patterns : ¬ update_merges_at s_foo newPatternSpec.
Proof.
  intros Hmerge.
  assert (Hlook : emulators s_foo !! EmulatorSpec.Id newPatternSpec
                  = Some (newEmulator (Some dummySpec)))
    by (vm_compute; reflexivity).
  destruct (Hmerge _ dummySpec _ _ Hlook eq_refl
              (UpdateEmulatorSpec_found _ _ _ Hlook))
    as (emu' & new & Hlook' & Hnew & Hsub).
  simpl in Hlook'. rewrite lookup_insert_eq in Hlook'.
  injection Hlook' as <-. simpl in Hnew. injection Hnew as <-.
  specialize (Hsub "foo*./" (or_introl (list_elem_of_here _ _))).
  simpl in Hsub. apply list_elem_of_singleton in Hsub. discriminate Hsub.
Qed.

(** What [UpdateEmulatorSpec] does at present on a stored id: [emu.spec =
    spec] puts the spec of the request in the place of the stored one; the
    record keeps its state and its handle, and no other record changes. *)
Lemma update_replaces_spec (s : server) (sp : EmulatorSpec.t) (emu : emulator) :
  emulators s !! EmulatorSpec.Id sp = Some emu →
  ∃ s', UpdateEmulatorSpec sp s = (s', Ok (Some sp)) ∧
        emulators s' !! EmulatorSpec.Id sp
          = Some {| spec := Some sp; cmd := cmd emu; state := state emu |} ∧
        ∀ id, id ≠ EmulatorSpec.Id sp → emulators s' !! id = emulators s !! id.
Proof.
  intros Hlook. eexists. split; [exact (UpdateEmulatorSpec_found _ _ _ Hlook) | ].
  simpl. split.
  - apply lookup_insert_eq.
  - intros id Hne. apply lookup_insert_ne. congruence.
Qed.

(** C4: ["foo"] is stored with the patterns ["foo*./"] and ["bar*./"]; an
    update whose request carries the single pattern ["newPattern"]
    succeeds, and the stored patterns are then ["newPattern"] alone:
    ["foo*./"], stored before, is gone instead of being kept. *)
Theorem UpdateEmulatorSpec_loses_stored_patterns :
  ∃ s' emu',
    (∃ emu, emulators s_foo !! "foo" = Some emu ∧
            (EmulatorSpec.TargetPattern <$> spec emu) = Some ["foo*./"; "bar*./"]) ∧
    UpdateEmulatorSpec newPatternSpec s_foo = (s', Ok (Some newPatternSpec)) ∧
    emulators s' !! "foo" = Some emu' ∧
    (EmulatorSpec.TargetPattern <$> spec emu') = Some ["newPattern"] ∧
    ¬ update_merges_at s_foo newPatternSpec.
Proof.
  assert (Hlook : emulators s_foo !! EmulatorSpec.Id newPatternSpec
                  = Some (newEmulator (Some dummySpec)))
    by (vm_compute; reflexivity).
  destruct (update_replaces_spec s_foo newPatternSpec _ Hlook) as (s' & Hupd & Hnew & _).
  exists s'. eexists.
  split; [exists (newEmulator (Some dummySpec)); split; [exact Hlook | reflexivity] | ].
  split; [exact Hupd | ].
  split; [exact Hnew | ].
  split; [reflexivity | exact update_drops_stored_patterns].
Qed.

(** ** Where the handlers part from their documentation *)

(** C1: [Resolve] on a registry without any spec, so that no pattern can
    match the target ["foo"]: the call returns the error
    ["%s not found"] instead of the target. *)
Theorem Resolve_unmatched_target_is_error :
  Resolve {| ResolveRequest.Target := "foo" |} New =
    (New, Err (fmt.Errorf "%s not found" ["foo"])) ∧
  ∀ s req, is_ok (snd (Resolve req s)) = false.
Proof. split; [apply Resolve_eq | intros s req; reflexivity]. Qed.

(** C2: [StopEmulator] on the freshly created, [OFFLINE] emulator ["foo"]
    returns the error of [stop]'s guard; the record stays [OFFLINE]. *)
Theorem StopEmulator_offline_is_error :
  emulators s_foo !! "foo" = Some (newEmulator (Some dummySpec)) ∧
  state (newEmulator (Some dummySpec)) = OFFLINE ∧
  StopEmulator {| SpecId.Value := "foo" |} s_foo =
    (s_foo,
     Err (fmt.Errorf "Emulator %q cannot be stopped because it is in state %q."
                     ["foo"; "offline"])).
Proof.
  assert (Hlook : emulators s_foo !! SpecId.Value {| SpecId.Value := "foo" |}
                  = Some (newEmulator (Some dummySpec)))
    by (vm_compute; reflexivity).
  split; [exact Hlook | ].
  split; [reflexivity | ].
  rewrite (StopEmulator_registered _ _ _ Hlook). reflexivity.
Qed.

(** C6: [StartEmulator] and [StopEmulator] on an id under which nothing is
    registered leave the registry as it was, and fail with the code
    [FailedPrecondition], which is not [NotFound]. *)
Theorem start_stop_missing_is_FailedPrecondition (w : world) :
  StartEmulator w {| SpecId.Value := "foo" |} New =
    (New, Err (grpc.Errorf codes.FailedPrecondition "Emulator %q doesn't exist." ["foo"])) ∧
  StopEmulator {| SpecId.Value := "foo" |} New =
    (New, Err (grpc.Errorf codes.FailedPrecondition "Emulator %q doesn't exist." ["foo"])) ∧
  grpc.Code (grpc.Errorf codes.FailedPrecondition "Emulator %q doesn't exist." ["foo"])
    ≠ codes.NotFound.
Proof.
  split; [apply StartEmulator_missing; reflexivity | ].
  split; [apply StopEmulator_missing; reflexivity | ].
  discriminate.
Qed.

(** ** Further properties of the handlers *)

(** X1: on an id under which nothing is registered, [GetEmulatorSpec],
    [UpdateEmulatorSpec] and [DeleteEmulatorSpec] fail with [NotFound] and
    leave the registry as it was. *)
Theorem crud_on_missing_id_is_NotFound (s : server) (sp : EmulatorSpec.t) :
  emulators s !! EmulatorSpec.Id sp = None →
  (∃ err, GetEmulatorSpec {| SpecId.Value := EmulatorSpec.Id sp |} s = (s, Err err) ∧
          grpc.Code err = codes.NotFound) ∧
  (∃ err, UpdateEmulatorSpec sp s = (s, Err err) ∧ grpc.Code err = codes.NotFound) ∧
  (∃ err, DeleteEmulatorSpec {| SpecId.Value := EmulatorSpec.Id sp |} s = (s, Err err) ∧
          grpc.Code err = codes.NotFound).
Proof.
  intros Hnone. repeat split; eexists; split.
  - apply GetEmulatorSpec_missing. exact Hnone.
  - reflexivity.
  - apply UpdateEmulatorSpec_missing. exact Hnone.
  - reflexivity.
  - apply DeleteEmulatorSpec_missing. exact Hnone.
  - reflexivity.
Qed.

Lemma crud_on_missing_id_is_NotFound_witness :
  emulators New !! "foo" = None ∧
  ∃ err, UpdateEmulatorSpec dummySpec New = (New, Err err) ∧
         grpc.Code err = codes.NotFound.
Proof.
  assert (Hnone : emulators New !! EmulatorSpec.Id dummySpec = None) by reflexivity.
  split; [exact Hnone | ].
  destruct (crud_on_missing_id_is_NotFound New dummySpec Hnone) as (_ & Hupd & _).
  exact Hupd.
Defined.

(** X2: after a successful [DeleteEmulatorSpec] the id is free again:
    [GetEmulatorSpec] on it fails with [NotFound], and every other record
    is untouched. *)
Theorem delete_then_get_is_NotFound
    (s s' : server) (specId : SpecId.t) (r : pb.Empty) :
  DeleteEmulatorSpec specId s = (s', Ok r) →
  emulators s' !! SpecId.Value specId = None ∧
  (∃ err, GetEmulatorSpec specId s' = (s', Err err) ∧ grpc.Code err = codes.NotFound) ∧
  ∀ id, id ≠ SpecId.Value specId → emulators s' !! id = emulators s !! id.
Proof.
  intros Hdel.
  destruct (emulators s !! SpecId.Value specId) as [emu | ] eqn:Hlook.
  - rewrite (DeleteEmulatorSpec_found _ _ _ Hlook) in Hdel.
    injection Hdel as <- _.
    assert (Hgone : emulators {| emulators := delete (SpecId.Value specId) (emulators s) |}
                    !! SpecId.Value specId = None)
      by (simpl; apply lookup_delete_eq).
    split; [exact Hgone | ]. split.
    + eexists. split; [exact (GetEmulatorSpec_missing _ _ Hgone) | reflexivity].
    + intros id Hne. simpl. apply lookup_delete_ne. congruence.
  - rewrite (DeleteEmulatorSpec_missing _ _ Hlook) in Hdel. discriminate Hdel.
Qed.

Lemma delete_then_get_is_NotFound_witness :
  DeleteEmulatorSpec {| SpecId.Value := "foo" |} s_foo = (New, Ok EMPTY) ∧
  emulators New !! "foo" = None.
Proof.
  assert (Hdel : DeleteEmulatorSpec {| SpecId.Value := "foo" |} s_foo = (New, Ok EMPTY))
    by (vm_compute; reflexivity).
  split; [exact Hdel | ].
  exact (proj1 (delete_then_get_is_NotFound s_foo New _ _ Hdel)).
Defined.

(** X3: [StartEmulator] on a registered [OFFLINE] record that has a spec
    with a command line succeeds when both pipes can be created, and
    leaves the record [STARTING] with the handle of [exec.Command]: the
    argument vector is the program name followed by the arguments, the
    environment is extended with the broker's address, and the path is the
    program name unless that is a bare file name, for which it is the file
    [LookPath] finds (the name again when nothing is found). *)
Theorem StartEmulator_offline_starts
    (w : world) (s : server) (specId : SpecId.t) (emu : emulator)
    (sp : EmulatorSpec.t) (cl : CommandLine.t) :
  emulators s !! SpecId.Value specId = Some emu →
  state emu = OFFLINE →
  spec emu = Some sp →
  EmulatorSpec.CommandLine sp = Some cl →
  StdoutPipe w = None →
  StderrPipe w = None →
  StartEmulator w specId s =
    ({| emulators :=
          <[SpecId.Value specId :=
              {| spec := Some sp; cmd := Some (started_cmd w cl); state := STARTING |}]>
            (emulators s) |},
     Ok EMPTY) ∧
  exec.Args (started_cmd w cl) = CommandLine.Path cl :: CommandLine.Args cl ∧
  exec.Env (started_cmd w cl)
    = (Environ w ++ ["TESTENV_BROKER_ADDRESS=localhost:10000"])%list ∧
  exec.Path (started_cmd w cl) =
    (if BaseIsName w (CommandLine.Path cl)
     then default (CommandLine.Path cl) (LookPath w (CommandLine.Path cl))
     else CommandLine.Path cl).
Proof.
  intros Hlook Hoff Hsp Hcl Hout Herr.
  split; [ | split; [reflexivity | split; [reflexivity | ]]].
  - unfold StartEmulator. unfold bind at 1. unfold get at 1. simpl.
    rewrite Hlook. unfold bind at 1, on_emulator.
    unfold start, bind, get, deref, check, put, ret. simpl.
    rewrite Hoff, Hsp. simpl. rewrite Hcl, Hout, Herr. reflexivity.
  - simpl. destruct (BaseIsName w (CommandLine.Path cl)); [ | reflexivity].
    destruct (LookPath w (CommandLine.Path cl)); reflexivity.
Qed.

Lemma StartEmulator_offline_starts_witness :
  StartEmulator fine {| SpecId.Value := "foo" |} s_foo = (s_foo_started, Ok EMPTY) ∧
  emulators s_foo_started !! "foo" = Some foo_started.
Proof.
  assert (Hlook : emulators s_foo !! SpecId.Value {| SpecId.Value := "foo" |}
                  = Some (newEmulator (Some dummySpec)))
    by (vm_compute; reflexivity).
  split; [ | vm_compute; reflexivity].
  rewrite (proj1 (StartEmulator_offline_starts fine s_foo {| SpecId.Value := "foo" |}
             (newEmulator (Some dummySpec)) dummySpec
             {| CommandLine.Path := "/exepath"; CommandLine.Args := ["arg1"; "arg2"] |}
             Hlook eq_refl eq_refl eq_refl eq_refl eq_refl)).
  vm_compute. reflexivity.
Defined.

(** A bare program name: the handle's path is the file found for it, the
    argument vector keeps the name. *)
Example started_cmd_bare_name :
  started_cmd fine {| CommandLine.Path := "sh"; CommandLine.Args := ["-c"; "true"] |} =
  {| exec.Path := "/bin/sh";
     exec.Args := ["sh"; "-c"; "true"];
     exec.Env := ["HOME=/root"; "TESTENV_BROKER_ADDRESS=localhost:10000"] |}.
Proof. reflexivity. Qed.

(** X4: [StartEmulator] on a registered record that is not [OFFLINE]
    returns the error of [start]'s guard (status code [Unknown]) and
    leaves the registry as it was. *)
Theorem StartEmulator_not_offline_is_error
    (w : world) (s : server) (specId : SpecId.t) (emu : emulator) (sp : EmulatorSpec.t) :
  emulators s !! SpecId.Value specId = Some emu →
  state emu ≠ OFFLINE →
  spec emu = Some sp →
  StartEmulator w specId s =
    (s, Err (fmt.Errorf "Emulator %q cannot be started because it is in state %q."
                        [EmulatorSpec.Id sp; state emu])) ∧
  grpc.Code (fmt.Errorf "Emulator %q cannot be started because it is in state %q."
                        [EmulatorSpec.Id sp; state emu]) = codes.Unknown.
Proof.
  intros Hlook Hne Hsp. split; [ | reflexivity].
  unfold StartEmulator. unfold bind at 1. unfold get at 1. simpl.
  rewrite Hlook. unfold bind.
  rewrite (on_emulator_unchanged s _ emu _ _ Hlook (start_not_offline w emu sp Hne Hsp)).
  reflexivity.
Qed.

Lemma StartEmulator_not_offline_is_error_witness :
  emulators s_foo_started !! "foo" = Some foo_started ∧
  state foo_started ≠ OFFLINE ∧
  StartEmulator fine {| SpecId.Value := "foo" |} s_foo_started =
    (s_foo_started,
     Err (fmt.Errorf "Emulator %q cannot be started because it is in state %q."
                     ["foo"; "starting"])).
Proof.
  assert (Hlook : emulators s_foo_started !! SpecId.Value {| SpecId.Value := "foo" |}
                  = Some foo_started)
    by (vm_compute; reflexivity).
  assert (Hne : state foo_started ≠ OFFLINE) by discriminate.
  split; [exact Hlook | ]. split; [exact Hne | ].
  exact (proj1 (StartEmulator_not_offline_is_error fine s_foo_started
                  {| SpecId.Value := "foo" |} foo_started dummySpec Hlook Hne eq_refl)).
Defined.

(** ** More on [start] and [StartEmulator] *)

(** [start] succeeds in one way only. *)
Lemma start_ok_inv (w : world) (emu emu' : emulator) (u : unit) :
  start w emu = (emu', Ok u) →
  ∃ sp cl,
    state emu = OFFLINE ∧ spec emu = Some sp ∧
    EmulatorSpec.CommandLine sp = Some cl ∧
    StdoutPipe w = None ∧ StderrPipe w = None ∧
    emu' = {| spec := Some sp; cmd := Some (started_cmd w cl); state := STARTING |}.
Proof.
  unfold start, bind, get, deref, check, put, ret, fail. simpl.
  destruct (String.eqb_spec (state emu) OFFLINE) as [Hoff | Hne]; simpl.
  - destruct (spec emu) as [sp | ] eqn:Hsp; [ | discriminate].
    destruct (EmulatorSpec.CommandLine sp) as [cl | ] eqn:Hcl; [ | discriminate].
    destruct (StdoutPipe w) eqn:Hout; [discriminate | ].
    destruct (StderrPipe w) eqn:Herr; [discriminate | ].
    intros Heq. injection Heq as <-.
    exists sp, cl. repeat split; assumption.
  - destruct (spec emu); discriminate.
Qed.

(** Whatever else [start] answers, the record is the one it was given. *)
Lemma start_not_ok_unchanged (w : world) (emu emu' : emulator) (r : result unit) :
  start w emu = (emu', r) → is_ok r = false → emu' = emu.
Proof.
  intros Hrun Hr.
  destruct (start_cases w emu) as [(r0 & Hrun0 & _) | (_ & c & Hrun0)];
    rewrite Hrun0 in Hrun; injection Hrun as <- <-.
  - reflexivity.
  - discriminate Hr.
Qed.

(** [StartEmulator] on a registered id, in terms of [start]. *)
Lemma StartEmulator_registered (w : world) (s : server) (specId : SpecId.t) (emu : emulator) :
  emulators s !! SpecId.Value specId = Some emu →
  StartEmulator w specId s =
    ({| emulators := <[SpecId.Value specId := fst (start w emu)]> (emulators s) |},
     match snd (start w emu) with
     | Ok _ => Ok EMPTY
     | Err e => Err e
     | Panic => Panic
     end).
Proof.
  intros Hlook. unfold StartEmulator. unfold bind at 1. unfold get at 1. simpl.
  rewrite Hlook. unfold bind, on_emulator.
  destruct (start w emu) as [emu' r]. destruct r; reflexivity.
Qed.

(** [StartEmulator] writes at most the record it names. *)
Lemma StartEmulator_other (w : world) (s : server) (specId : SpecId.t) (id : string) :
  id ≠ SpecId.Value specId →
  emulators (fst (StartEmulator w specId s)) !! id = emulators s !! id.
Proof.
  intros Hne.
  destruct (emulators s !! SpecId.Value specId) as [emu | ] eqn:Hlook.
  - rewrite (StartEmulator_registered _ _ _ _ Hlook). simpl.
    apply lookup_insert_ne. congruence.
  - rewrite (StartEmulator_missing _ _ _ Hlook). reflexivity.
Qed.

(** X5: [StartEmulator] returns success only from a registered [OFFLINE]
    record whose spec has a command line, and only when both pipes could be
    created; the registry it leaves differs from the old one exactly by
    that record being [STARTING] with the handle built from the command
    line. *)
Theorem StartEmulator_success_only_from_offline
    (w : world) (s s' : server) (specId : SpecId.t) (r : pb.Empty) :
  StartEmulator w specId s = (s', Ok r) →
  ∃ emu sp cl,
    emulators s !! SpecId.Value specId = Some emu ∧
    state emu = OFFLINE ∧
    spec emu = Some sp ∧ EmulatorSpec.CommandLine sp = Some cl ∧
    StdoutPipe w = None ∧ StderrPipe w = None ∧
    s' = {| emulators :=
              <[SpecId.Value specId :=
                  {| spec := Some sp; cmd := Some (started_cmd w cl); state := STARTING |}]>
                (emulators s) |}.
Proof.
  intros Hstart.
  destruct (emulators s !! SpecId.Value specId) as [emu | ] eqn:Hlook.
  - rewrite (StartEmulator_registered _ _ _ _ Hlook) in Hstart.
    destruct (start w emu) as [emu' [u | e | ]] eqn:Hrun; simpl in Hstart;
      try discriminate Hstart.
    injection Hstart as <- _.
    destruct (start_ok_inv _ _ _ _ Hrun) as (sp & cl & Hoff & Hsp & Hcl & Hout & Herr & ->).
    exists emu, sp, cl. repeat split; assumption.
  - rewrite (StartEmulator_missing _ _ _ Hlook) in Hstart. discriminate Hstart.
Qed.

Lemma StartEmulator_success_only_from_offline_witness :
  StartEmulator fine {| SpecId.Value := "foo" |} s_foo = (s_foo_started, Ok EMPTY) ∧
  ∃ emu sp cl,
    emulators s_foo !! "foo" = Some emu ∧ state emu = OFFLINE ∧
    spec emu = Some sp ∧ EmulatorSpec.CommandLine sp = Some cl ∧
    StdoutPipe fine = None ∧ StderrPipe fine = None ∧
    s_foo_started =
      {| emulators :=
           <["foo" := {| spec := Some sp; cmd := Some (started_cmd fine cl);
                         state := STARTING |}]> (emulators s_foo) |}.
Proof.
  assert (Hstart : StartEmulator fine {| SpecId.Value := "foo" |} s_foo
                   = (s_foo_started, Ok EMPTY))
    by (vm_compute; reflexivity).
  split; [exact Hstart | ].
  exact (StartEmulator_success_only_from_offline fine s_foo s_foo_started _ _ Hstart).
Defined.

(** A world in which the second pipe cannot be created. *)
Definition no_stderr : world :=
  {| BaseIsName := fun _ => false; LookPath := fun _ => None;
     Environ := []; StdoutPipe := None;
     StderrPipe := Some (osError "too many open files") |}.

(** X6: when [StdoutPipe] or [StderrPipe] fails, [StartEmulator] on a
    registered [OFFLINE] record with a command line returns that very
    error (status code [Unknown]) and leaves the registry as it was: the
    record stays [OFFLINE], without a handle being stored. *)
Theorem StartEmulator_pipe_failure
    (w : world) (s : server) (specId : SpecId.t) (emu : emulator)
    (sp : EmulatorSpec.t) (cl : CommandLine.t) (err : error) :
  emulators s !! SpecId.Value specId = Some emu →
  state emu = OFFLINE →
  spec emu = Some sp →
  EmulatorSpec.CommandLine sp = Some cl →
  StdoutPipe w = Some err ∨ (StdoutPipe w = None ∧ StderrPipe w = Some err) →
  StartEmulator w specId s = (s, Err err).
Proof.
  intros Hlook Hoff Hsp Hcl Hpipe.
  assert (Hrun : start w emu = (emu, Err err)).
  { unfold start, bind, get, deref, check, put, ret. simpl.
    rewrite Hoff, Hsp. simpl. rewrite Hcl.
    destruct Hpipe as [Hout | [Hout Herr]].
    - rewrite Hout. reflexivity.
    - rewrite Hout, Herr. reflexivity. }
  unfold StartEmulator. unfold bind at 1. unfold get at 1. simpl.
  rewrite Hlook. unfold bind.
  rewrite (on_emulator_unchanged s _ emu _ _ Hlook Hrun). reflexivity.
Qed.

Lemma StartEmulator_pipe_failure_witness :
  StartEmulator no_stderr {| SpecId.Value := "foo" |} s_foo =
    (s_foo, Err (osError "too many open files")).
Proof.
  assert (Hlook : emulators s_foo !! SpecId.Value {| SpecId.Value := "foo" |}
                  = Some (newEmulator (Some dummySpec)))
    by (vm_compute; reflexivity).
  exact (StartEmulator_pipe_failure no_stderr s_foo {| SpecId.Value := "foo" |}
           (newEmulator (Some dummySpec)) dummySpec
           {| CommandLine.Path := "/exepath"; CommandLine.Args := ["arg1"; "arg2"] |}
           (osError "too many open files")
           Hlook eq_refl eq_refl eq_refl (or_intror (conj eq_refl eq_refl))).
Defined.

(** The two ways in which [start] returns an error. *)
Lemma start_err_inv (w : world) (emu emu' : emulator) (e : error) :
  start w emu = (emu', Err e) →
  emu' = emu ∧
  ((∃ sp, spec emu = Some sp ∧ state emu ≠ OFFLINE ∧
          e = fmt.Errorf "Emulator %q cannot be started because it is in state %q."
                         [EmulatorSpec.Id sp; state emu]) ∨
   (state emu = OFFLINE ∧
    (StdoutPipe w = Some e ∨ (StdoutPipe w = None ∧ StderrPipe w = Some e)))).
Proof.
  intros Hrun.
  split; [exact (start_not_ok_unchanged _ _ _ _ Hrun eq_refl) | ].
  revert Hrun.
  unfold start, bind, get, deref, check, put, ret, fail. simpl.
  destruct (String.eqb_spec (state emu) OFFLINE) as [Hoff | Hne]; simpl.
  - destruct (spec emu) as [sp | ]; [ | discriminate].
    destruct (EmulatorSpec.CommandLine sp) as [cl | ]; [ | discriminate].
    destruct (StdoutPipe w) as [e1 | ].
    + intros Heq. injection Heq as _ <-. right. auto.
    + destruct (StderrPipe w) as [e2 | ]; [ | discriminate].
      intros Heq. injection Heq as _ <-. right. auto.
  - destruct (spec emu) as [sp | ]; [ | discriminate].
    intros Heq. injection Heq as <-. left. exists sp. auto.
Qed.

(** X7: every error [StartEmulator] returns leaves the registry as it
    was, and is one of three: the [FailedPrecondition] error, when nothing
    is registered under the id; the guard error of [start] (a plain error,
    status code [Unknown]), when the record is not [OFFLINE]; or the error
    of a pipe that could not be created, when the record is [OFFLINE]. *)
Theorem StartEmulator_errors
    (w : world) (s s' : server) (specId : SpecId.t) (e : error) :
  StartEmulator w specId s = (s', Err e) →
  s' = s ∧
  ((emulators s !! SpecId.Value specId = None ∧
    e = grpc.Errorf codes.FailedPrecondition "Emulator %q doesn't exist."
                    [SpecId.Value specId]) ∨
   (∃ emu sp, emulators s !! SpecId.Value specId = Some emu ∧
              spec emu = Some sp ∧ state emu ≠ OFFLINE ∧
              e = fmt.Errorf "Emulator %q cannot be started because it is in state %q."
                             [EmulatorSpec.Id sp; state emu] ∧
              grpc.Code e = codes.Unknown) ∨
   (∃ emu, emulators s !! SpecId.Value specId = Some emu ∧ state emu = OFFLINE ∧
           (StdoutPipe w = Some e ∨ StderrPipe w = Some e))).
Proof.
  intros Hstart.
  destruct (emulators s !! SpecId.Value specId) as [emu | ] eqn:Hlook.
  - rewrite (StartEmulator_registered _ _ _ _ Hlook) in Hstart.
    destruct (start w emu) as [emu' [u | e0 | ]] eqn:Hrun; simpl in Hstart;
      try discriminate Hstart.
    injection Hstart as <- <-.
    destruct (start_err_inv _ _ _ _ Hrun) as [-> Hwhy].
    split.
    + rewrite insert_id by exact Hlook. apply server_eta.
    + right. destruct Hwhy as [(sp & Hsp & Hne & ->) | (Hoff & Hpipe)].
      * left. exists emu, sp. repeat split; assumption.
      * right. exists emu. repeat split; [exact Hoff | ].
        destruct Hpipe as [Hout | [_ Herr]]; auto.
  - rewrite (StartEmulator_missing _ _ _ Hlook) in Hstart.
    injection Hstart as <- <-. split; [reflexivity | left; auto].
Qed.

Lemma StartEmulator_errors_witness :
  StartEmulator fine {| SpecId.Value := "foo" |} New =
    (New, Err (grpc.Errorf codes.FailedPrecondition "Emulator %q doesn't exist." ["foo"])) ∧
  New = New ∧
  ((emulators New !! "foo" = None ∧
    grpc.Errorf codes.FailedPrecondition "Emulator %q doesn't exist." ["foo"] =
    grpc.Errorf codes.FailedPrecondition "Emulator %q doesn't exist." ["foo"]) ∨
   (∃ emu sp, emulators New !! "foo" = Some emu ∧
              spec emu = Some sp ∧ state emu ≠ OFFLINE ∧
              grpc.Errorf codes.FailedPrecondition "Emulator %q doesn't exist." ["foo"] =
              fmt.Errorf "Emulator %q cannot be started because it is in state %q."
                         [EmulatorSpec.Id sp; state emu] ∧
              grpc.Code (grpc.Errorf codes.FailedPrecondition
                           "Emulator %q doesn't exist." ["foo"]) = codes.Unknown) ∨
   (∃ emu, emulators New !! "foo" = Some emu ∧ state emu = OFFLINE ∧
           (StdoutPipe fine =
              Some (grpc.Errorf codes.FailedPrecondition "Emulator %q doesn't exist." ["foo"]) ∨
            StderrPipe fine =
              Some (grpc.Errorf codes.FailedPrecondition "Emulator %q doesn't exist." ["foo"])))).
Proof.
  assert (Hstart : StartEmulator fine {| SpecId.Value := "foo" |} New =
            (New, Err (grpc.Errorf codes.FailedPrecondition
                         "Emulator %q doesn't exist." ["foo"])))
    by reflexivity.
  split; [exact Hstart | ].
  exact (StartEmulator_errors fine New New {| SpecId.Value := "foo" |} _ Hstart).
Defined.

(** ** Listing, and calls that only read *)

(** X8: [ListEmulatorSpecs] always succeeds and leaves the registry as it
    was; its answer is, entry by entry, the specs of an enumeration of the
    registry in which every registered id occurs exactly once with its
    record. So it has one entry per registered id, and a spec is in the
    answer exactly when it is the spec of a registered record. *)
Theorem ListEmulatorSpecs_lists_registry (s : server) :
  ∃ (resp : ListEmulatorSpecsResponse.t) (records : list (string * emulator)),
    ListEmulatorSpecs s = (s, Ok resp) ∧
    NoDup (fst <$> records) ∧
    (∀ id emu, (id, emu) ∈ records ↔ emulators s !! id = Some emu) ∧
    ListEmulatorSpecsResponse.Specs resp = (fun kv => spec (snd kv)) <$> records ∧
    List.length (ListEmulatorSpecsResponse.Specs resp) = size (emulators s) ∧
    ∀ x, x ∈ ListEmulatorSpecsResponse.Specs resp ↔
         ∃ id emu, emulators s !! id = Some emu ∧ spec emu = x.
Proof.
  eexists. exists (map_to_list (emulators s)).
  split; [reflexivity | ]. simpl.
  split; [apply NoDup_fst_map_to_list | ].
  split; [intros id emu; apply elem_of_map_to_list | ].
  split; [reflexivity | ].
  split.
  - rewrite length_fmap. apply length_map_to_list.
  - intros x. rewrite list_elem_of_fmap. split.
    + intros ([id emu] & -> & Hin). apply elem_of_map_to_list in Hin.
      exists id, emu. split; [exact Hin | reflexivity].
    + intros (id & emu & Hlook & <-). exists (id, emu).
      split; [reflexivity | ]. apply elem_of_map_to_list. exact Hlook.
Qed.

(** The calls that can write the registry. *)
Definition writes (c : call) : bool :=
  match c with
  | CallCreateEmulatorSpec _ | CallUpdateEmulatorSpec _
  | CallDeleteEmulatorSpec _ | CallStartEmulator _ _ => true
  | CallGetEmulatorSpec _ | CallListEmulatorSpecs | CallStopEmulator _
  | CallListEmulators | CallResolve _ => false
  end.

Lemma step_reader (c : call) (s : server) : writes c = false → step c s = s.
Proof.
  destruct c; simpl; intros Hw; try discriminate Hw; try reflexivity.
  - apply GetEmulatorSpec_frame.
  - apply StopEmulator_frame.
Qed.

(** X9: [GetEmulatorSpec], [ListEmulatorSpecs], [StopEmulator],
    [ListEmulators] and [Resolve] never write the registry: taking all of
    them out of a history of calls leaves the resulting registry the
    same. *)
Theorem readers_can_be_erased (cs : list call) (s : server) :
  run (filter (fun c => writes c = true) cs) s = run cs s.
Proof.
  revert s. induction cs as [ | c cs IH]; intros s; [reflexivity | ].
  destruct (writes c) eqn:Hw.
  - rewrite filter_cons_True by exact Hw. simpl. apply IH.
  - rewrite filter_cons_False by (rewrite Hw; discriminate).
    simpl. rewrite (step_reader c s Hw). apply IH.
Qed.

(** ** Which ids are registered *)

Lemma registered_union (id : string) (X : gset string) : id ∈ X → {[id]} ∪ X = X.
Proof. intros Hin. apply subseteq_union_1_L, singleton_subseteq_l, Hin. Qed.

(** X10: the set of registered ids changes by [CreateEmulatorSpec] (the id
    of the request is added) and [DeleteEmulatorSpec] (the id is removed)
    only; every other call, successful or not, leaves it as it was. *)
Theorem registered_ids_step (c : call) (s : server) :
  dom (emulators (step c s)) =
  match c with
  | CallCreateEmulatorSpec req =>
      {[CreateEmulatorSpecRequest.SpecId req]} ∪ dom (emulators s)
  | CallDeleteEmulatorSpec specId => dom (emulators s) ∖ {[SpecId.Value specId]}
  | _ => dom (emulators s)
  end.
Proof.
  destruct c as [req | specId | sp | specId | | w specId | specId | | req]; simpl.
  - destruct (emulators s !! CreateEmulatorSpecRequest.SpecId req) as [emu | ] eqn:Hlook.
    + rewrite (CreateEmulatorSpec_taken _ _ _ Hlook). simpl.
      symmetry. apply registered_union. eapply elem_of_dom_2, Hlook.
    + rewrite (CreateEmulatorSpec_fresh _ _ Hlook). simpl. apply dom_insert_L.
  - rewrite GetEmulatorSpec_frame. reflexivity.
  - destruct (emulators s !! EmulatorSpec.Id sp) as [emu | ] eqn:Hlook.
    + rewrite (UpdateEmulatorSpec_found _ _ _ Hlook). simpl.
      rewrite dom_insert_L. apply registered_union. eapply elem_of_dom_2, Hlook.
    + rewrite (UpdateEmulatorSpec_missing _ _ Hlook). reflexivity.
  - destruct (emulators s !! SpecId.Value specId) as [emu | ] eqn:Hlook.
    + rewrite (DeleteEmulatorSpec_found _ _ _ Hlook). simpl. apply dom_delete_L.
    + rewrite (DeleteEmulatorSpec_missing _ _ Hlook). simpl.
      symmetry. apply difference_disjoint_L, disjoint_singleton_r.
      apply not_elem_of_dom_2, Hlook.
  - reflexivity.
  - destruct (emulators s !! SpecId.Value specId) as [emu | ] eqn:Hlook.
    + rewrite (StartEmulator_registered _ _ _ _ Hlook). simpl.
      rewrite dom_insert_L. apply registered_union. eapply elem_of_dom_2, Hlook.
    + rewrite (StartEmulator_missing _ _ _ Hlook). reflexivity.
  - rewrite StopEmulator_frame. reflexivity.
  - reflexivity.
  - reflexivity.
Qed.

(** X11: creating a spec under a free id and then deleting that id gives
    back the registry one started from. *)
Theorem create_then_delete_restores (s : server) (req : CreateEmulatorSpecRequest.t) :
  emulators s !! CreateEmulatorSpecRequest.SpecId req = None →
  run [CallCreateEmulatorSpec req;
       CallDeleteEmulatorSpec {| SpecId.Value := CreateEmulatorSpecRequest.SpecId req |}] s
  = s.
Proof.
  intros Hfree. unfold run. simpl.
  rewrite (CreateEmulatorSpec_fresh _ _ Hfree). simpl.
  rewrite (DeleteEmulatorSpec_found _ {| SpecId.Value := _ |}
             (newEmulator (CreateEmulatorSpecRequest.Spec req)))
    by (simpl; apply lookup_insert_eq).
  simpl. rewrite delete_insert_eq, delete_id by exact Hfree.
  apply server_eta.
Qed.

Lemma create_then_delete_restores_witness :
  emulators New !! "foo" = None ∧
  run [CallCreateEmulatorSpec dummyReq;
       CallDeleteEmulatorSpec {| SpecId.Value := "foo" |}] New = New.
Proof.
  assert (Hfree : emulators New !! CreateEmulatorSpecRequest.SpecId dummyReq = None)
    by reflexivity.
  split; [exact Hfree | ].
  exact (create_then_delete_restores New dummyReq Hfree).
Defined.

(** ** How calls compose *)

(** X12: of two successive updates of a registered id the second wins:
    the registry is the one the second update alone would leave, and
    [GetEmulatorSpec] then returns the second spec. *)
Theorem update_last_writer_wins (s : server) (sp1 sp2 : EmulatorSpec.t) (emu : emulator) :
  emulators s !! EmulatorSpec.Id sp1 = Some emu →
  EmulatorSpec.Id sp2 = EmulatorSpec.Id sp1 →
  run [CallUpdateEmulatorSpec sp1; CallUpdateEmulatorSpec sp2] s
    = run [CallUpdateEmulatorSpec sp2] s ∧
  GetEmulatorSpec {| SpecId.Value := EmulatorSpec.Id sp1 |}
                  (run [CallUpdateEmulatorSpec sp1; CallUpdateEmulatorSpec sp2] s)
    = (run [CallUpdateEmulatorSpec sp1; CallUpdateEmulatorSpec sp2] s, Ok (Some sp2)).
Proof.
  intros Hlook Hid.
  assert (Hlook2 : emulators s !! EmulatorSpec.Id sp2 = Some emu) by (rewrite Hid; exact Hlook).
  assert (Hrun : run [CallUpdateEmulatorSpec sp1; CallUpdateEmulatorSpec sp2] s
                 = run [CallUpdateEmulatorSpec sp2] s).
  { unfold run. simpl.
    rewrite (UpdateEmulatorSpec_found _ _ _ Hlook). simpl.
    rewrite (UpdateEmulatorSpec_found _ sp2
               {| spec := Some sp1; cmd := cmd emu; state := state emu |})
      by (simpl; rewrite Hid; apply lookup_insert_eq).
    rewrite (UpdateEmulatorSpec_found _ _ _ Hlook2). simpl.
    rewrite Hid, insert_insert_eq. reflexivity. }
  split; [exact Hrun | ].
  rewrite Hrun. unfold run. simpl.
  rewrite (UpdateEmulatorSpec_found _ _ _ Hlook2). simpl.
  apply (GetEmulatorSpec_found _ {| SpecId.Value := _ |}
           {| spec := Some sp2; cmd := cmd emu; state := state emu |}).
  simpl. rewrite Hid. apply lookup_insert_eq.
Qed.

Lemma update_last_writer_wins_witness :
  emulators s_foo !! "foo" = Some (newEmulator (Some dummySpec)) ∧
  run [CallUpdateEmulatorSpec newPatternSpec; CallUpdateEmulatorSpec dummySpec] s_foo
    = run [CallUpdateEmulatorSpec dummySpec] s_foo.
Proof.
  assert (Hlook : emulators s_foo !! EmulatorSpec.Id newPatternSpec
                  = Some (newEmulator (Some dummySpec)))
    by (vm_compute; reflexivity).
  split; [exact Hlook | ].
  exact (proj1 (update_last_writer_wins s_foo newPatternSpec dummySpec _ Hlook eq_refl)).
Defined.

(** X14: deleting a registered id and creating it again replaces the
    record, whatever its state and handle were, by a fresh [OFFLINE]
    record without handle; [DeleteEmulatorSpec] does not go through
    [stop], and the other records are untouched. *)
Theorem delete_then_create_is_fresh
    (s : server) (specId : SpecId.t) (emu : emulator) (req : CreateEmulatorSpecRequest.t) :
  emulators s !! SpecId.Value specId = Some emu →
  CreateEmulatorSpecRequest.SpecId req = SpecId.Value specId →
  DeleteEmulatorSpec specId s
    = ({| emulators := delete (SpecId.Value specId) (emulators s) |}, Ok EMPTY) ∧
  emulators (run [CallDeleteEmulatorSpec specId; CallCreateEmulatorSpec req] s)
    = <[SpecId.Value specId := newEmulator (CreateEmulatorSpecRequest.Spec req)]> (emulators s).
Proof.
  intros Hlook Hid. split; [exact (DeleteEmulatorSpec_found _ _ _ Hlook) | ].
  unfold run. simpl.
  rewrite (DeleteEmulatorSpec_found _ _ _ Hlook). simpl.
  rewrite CreateEmulatorSpec_fresh by (simpl; rewrite Hid; apply lookup_delete_eq).
  simpl. rewrite Hid. apply insert_delete_eq.
Qed.

Lemma delete_then_create_is_fresh_witness :
  emulators s_foo_started !! "foo" = Some foo_started ∧
  emulators (run [CallDeleteEmulatorSpec {| SpecId.Value := "foo" |};
                  CallCreateEmulatorSpec dummyReq] s_foo_started)
    = <["foo" := newEmulator (Some dummySpec)]> (emulators s_foo_started).
Proof.
  assert (Hlook : emulators s_foo_started !! SpecId.Value {| SpecId.Value := "foo" |}
                  = Some foo_started)
    by (vm_compute; reflexivity).
  split; [exact Hlook | ].
  exact (proj2 (delete_then_create_is_fresh s_foo_started {| SpecId.Value := "foo" |}
                  foo_started dummyReq Hlook eq_refl)).
Defined.

Lemma step_create (req : CreateEmulatorSpecRequest.t) (s : server) :
  step (CallCreateEmulatorSpec req) s =
  match emulators s !! CreateEmulatorSpecRequest.SpecId req with
  | Some _ => s
  | None =>
      {| emulators := <[CreateEmulatorSpecRequest.SpecId req :=
                          newEmulator (CreateEmulatorSpecRequest.Spec req)]> (emulators s) |}
  end.
Proof.
  simpl.
  destruct (emulators s !! CreateEmulatorSpecRequest.SpecId req) as [emu | ] eqn:Hlook.
  - rewrite (CreateEmulatorSpec_taken _ _ _ Hlook). reflexivity.
  - rewrite (CreateEmulatorSpec_fresh _ _ Hlook). reflexivity.
Qed.

(** X15: two creations under different ids commute: in either order they
    leave the same registry. *)
Theorem creates_on_distinct_ids_commute
    (s : server) (r1 r2 : CreateEmulatorSpecRequest.t) :
  CreateEmulatorSpecRequest.SpecId r1 ≠ CreateEmulatorSpecRequest.SpecId r2 →
  run [CallCreateEmulatorSpec r1; CallCreateEmulatorSpec r2] s
  = run [CallCreateEmulatorSpec r2; CallCreateEmulatorSpec r1] s.
Proof.
  intros Hne. unfold run, fold_left. rewrite !step_create.
  destruct (emulators s !! CreateEmulatorSpecRequest.SpecId r1) as [e1 | ] eqn:H1;
    destruct (emulators s !! CreateEmulatorSpecRequest.SpecId r2) as [e2 | ] eqn:H2;
    simpl; rewrite ?H1, ?H2, ?lookup_insert_ne by congruence;
    rewrite ?H1, ?H2; try reflexivity.
  f_equal. apply insert_insert_ne. congruence.
Qed.

Lemma creates_on_distinct_ids_commute_witness :
  CreateEmulatorSpecRequest.SpecId dummyReq ≠ CreateEmulatorSpecRequest.SpecId badReq ∧
  run [CallCreateEmulatorSpec dummyReq; CallCreateEmulatorSpec badReq] New
  = run [CallCreateEmulatorSpec badReq; CallCreateEmulatorSpec dummyReq] New.
Proof.
  assert (Hne : CreateEmulatorSpecRequest.SpecId dummyReq
                ≠ CreateEmulatorSpecRequest.SpecId badReq) by discriminate.
  split; [exact Hne | ].
  exact (creates_on_distinct_ids_commute New dummyReq badReq Hne).
Defined.

(** ** What a started record goes through *)

(** [c] is a deletion of [id]. *)
Definition deletes (id : string) (c : call) : bool :=
  match c with
  | CallDeleteEmulatorSpec specId => String.eqb (SpecId.Value specId) id
  | _ => false
  end.

(** A record that has left [OFFLINE] keeps its state and its handle over a
    call that does not delete it. *)
Lemma step_keeps_started (c : call) (s : server) (id : string) (emu : emulator) :
  emulators s !! id = Some emu →
  state emu ≠ OFFLINE →
  deletes id c = false →
  ∃ emu', emulators (step c s) !! id = Some emu' ∧
          state emu' = state emu ∧ cmd emu' = cmd emu.
Proof.
  intros Hlook Hne Hdel.
  destruct c as [req | specId | sp | specId | | w specId | specId | | req]; simpl.
  - change (fst (CreateEmulatorSpec req s)) with (step (CallCreateEmulatorSpec req) s).
    rewrite step_create.
    destruct (emulators s !! CreateEmulatorSpecRequest.SpecId req) as [e0 | ] eqn:Hreq.
    + eauto.
    + exists emu. simpl. rewrite lookup_insert_ne by congruence. auto.
  - rewrite GetEmulatorSpec_frame. eauto.
  - destruct (emulators s !! EmulatorSpec.Id sp) as [e0 | ] eqn:Hsp.
    + rewrite (UpdateEmulatorSpec_found _ _ _ Hsp). simpl.
      destruct (decide (EmulatorSpec.Id sp = id)) as [Heq | Hother].
      * rewrite Heq in *. rewrite Hlook in Hsp. injection Hsp as <-.
        rewrite lookup_insert_eq. eexists. split; [reflexivity | ]. auto.
      * rewrite lookup_insert_ne by exact Hother. eauto.
    + rewrite (UpdateEmulatorSpec_missing _ _ Hsp). eauto.
  - simpl in Hdel. apply String.eqb_neq in Hdel.
    destruct (emulators s !! SpecId.Value specId) as [e0 | ] eqn:Hid.
    + rewrite (DeleteEmulatorSpec_found _ _ _ Hid). simpl.
      rewrite lookup_delete_ne by exact Hdel. eauto.
    + rewrite (DeleteEmulatorSpec_missing _ _ Hid). eauto.
  - eauto.
  - destruct (decide (id = SpecId.Value specId)) as [Heq | Hother].
    + subst id. rewrite (StartEmulator_registered _ _ _ _ Hlook). simpl.
      rewrite lookup_insert_eq.
      destruct (start_cases w emu) as [(r & Hrun & _) | (Hoff & _)].
      * rewrite Hrun. simpl. eauto.
      * contradiction.
    + rewrite (StartEmulator_other _ _ _ _ Hother). eauto.
  - rewrite StopEmulator_frame. eauto.
  - eauto.
  - eauto.
Qed.

(** X13: once a record has left [OFFLINE] it is stuck: through every
    history that does not delete its id, whatever the calls and their
    outcomes, the id stays registered with the same state and the same
    child handle. *)
Theorem started_record_is_stuck
    (cs : list call) (s : server) (id : string) (emu : emulator) :
  emulators s !! id = Some emu →
  state emu ≠ OFFLINE →
  forallb (fun c => negb (deletes id c)) cs = true →
  ∃ emu', emulators (run cs s) !! id = Some emu' ∧
          state emu' = state emu ∧ cmd emu' = cmd emu.
Proof.
  revert s emu. induction cs as [ | c cs IH]; intros s emu Hlook Hne Hcs.
  - exists emu. auto.
  - simpl in Hcs. apply andb_prop in Hcs as [Hc Hcs].
    apply negb_true_iff in Hc.
    destruct (step_keeps_started c s id emu Hlook Hne Hc) as (emu1 & Hlook1 & Hst1 & Hcmd1).
    destruct (IH (step c s) emu1 Hlook1) as (emu' & Hlook' & Hst' & Hcmd').
    + rewrite Hst1. exact Hne.
    + exact Hcs.
    + exists emu'. split; [exact Hlook' | ]. split; congruence.
Qed.

Lemma started_record_is_stuck_witness :
  emulators s_foo_started !! "foo" = Some foo_started ∧
  ∃ emu', emulators
            (run [CallStopEmulator {| SpecId.Value := "foo" |};
                  CallUpdateEmulatorSpec newPatternSpec;
                  CallStartEmulator fine {| SpecId.Value := "foo" |}] s_foo_started)
            !! "foo" = Some emu' ∧
          state emu' = state foo_started ∧ cmd emu' = cmd foo_started.
Proof.
  assert (Hlook : emulators s_foo_started !! "foo" = Some foo_started)
    by (vm_compute; reflexivity).
  assert (Hne : state foo_started ≠ OFFLINE) by discriminate.
  split; [exact Hlook | ].
  exact (started_record_is_stuck
           [CallStopEmulator {| SpecId.Value := "foo" |};
            CallUpdateEmulatorSpec newPatternSpec;
            CallStartEmulator fine {| SpecId.Value := "foo" |}]
           s_foo_started "foo" foo_started Hlook Hne eq_refl).
Defined.

(** ** Invariants of the records, in general *)

Section RecordInvariant.

Variable P : emulator → Prop.

Hypothesis P_new : ∀ sp, P (newEmulator sp).
Hypothesis P_update :
  ∀ emu sp, P emu → P {| spec := Some sp; cmd := cmd emu; state := state emu |}.
Hypothesis P_start :
  ∀ w emu sp cl,
    P emu → state emu = OFFLINE → spec emu = Some sp →
    EmulatorSpec.CommandLine sp = Some cl →
    P {| spec := Some sp; cmd := Some (started_cmd w cl); state := STARTING |}.

(** A property of records that holds of new records and survives the two
    writes the handlers make, holds throughout the registry after any
    call. *)
Lemma step_records (c : call) (s : server) :
  map_Forall (fun _ => P) (emulators s) → map_Forall (fun _ => P) (emulators (step c s)).
Proof.
  intros Hs.
  destruct c as [req | specId | sp | specId | | w specId | specId | | req]; simpl.
  - change (fst (CreateEmulatorSpec req s)) with (step (CallCreateEmulatorSpec req) s).
    rewrite step_create.
    destruct (emulators s !! CreateEmulatorSpecRequest.SpecId req); [exact Hs | ].
    simpl. apply map_Forall_insert_2; [apply P_new | exact Hs].
  - rewrite GetEmulatorSpec_frame. exact Hs.
  - destruct (emulators s !! EmulatorSpec.Id sp) as [emu | ] eqn:Hlook.
    + rewrite (UpdateEmulatorSpec_found _ _ _ Hlook). simpl.
      apply map_Forall_insert_2; [ | exact Hs]. apply P_update. exact (Hs _ _ Hlook).
    + rewrite (UpdateEmulatorSpec_missing _ _ Hlook). exact Hs.
  - destruct (emulators s !! SpecId.Value specId) as [emu | ] eqn:Hlook.
    + rewrite (DeleteEmulatorSpec_found _ _ _ Hlook). simpl.
      apply map_Forall_delete. exact Hs.
    + rewrite (DeleteEmulatorSpec_missing _ _ Hlook). exact Hs.
  - exact Hs.
  - destruct (emulators s !! SpecId.Value specId) as [emu | ] eqn:Hlook.
    + rewrite (StartEmulator_registered _ _ _ _ Hlook). simpl.
      apply map_Forall_insert_2; [ | exact Hs].
      destruct (start w emu) as [emu' [u | e | ]] eqn:Hrun; simpl.
      * destruct (start_ok_inv _ _ _ _ Hrun) as (sp & cl & Hoff & Hsp & Hcl & _ & _ & ->).
        apply (P_start w emu sp cl); try assumption. exact (Hs _ _ Hlook).
      * rewrite (start_not_ok_unchanged _ _ _ _ Hrun eq_refl). exact (Hs _ _ Hlook).
      * rewrite (start_not_ok_unchanged _ _ _ _ Hrun eq_refl). exact (Hs _ _ Hlook).
    + rewrite (StartEmulator_missing _ _ _ Hlook). exact Hs.
  - rewrite StopEmulator_frame. exact Hs.
  - exact Hs.
  - exact Hs.
Qed.

Lemma run_records (cs : list call) (s : server) :
  map_Forall (fun _ => P) (emulators s) → map_Forall (fun _ => P) (emulators (run cs s)).
Proof.
  revert s. induction cs as [ | c cs IH]; intros s Hs; simpl.
  - exact Hs.
  - apply IH, step_records, Hs.
Qed.

End RecordInvariant.

(** What every handle made by [start] looks like: the argument vector is
    not empty (it begins with the program name), and the environment ends
    with the address of the broker. *)
Definition handle_ok (c : exec.Cmd) : Prop :=
  exec.Args c ≠ [] ∧
  last (exec.Env c) = Some "TESTENV_BROKER_ADDRESS=localhost:10000".

Lemma started_cmd_ok (w : world) (cl : CommandLine.t) : handle_ok (started_cmd w cl).
Proof. split; [discriminate | apply last_snoc]. Qed.

(** X16: in every registry reachable from [New()], the child handle of a
    record has a non-empty argument vector, and the last entry of its
    environment is [TESTENV_BROKER_ADDRESS=localhost:10000]. *)
Theorem reachable_handles_carry_broker_address
    (cs : list call) (id : string) (emu : emulator) (c : exec.Cmd) :
  emulators (run cs New) !! id = Some emu →
  cmd emu = Some c →
  handle_ok c.
Proof.
  intros Hlook Hcmd.
  refine (run_records (fun e => ∀ c0, cmd e = Some c0 → handle_ok c0)
            _ _ _ cs New _ id emu Hlook c Hcmd).
  - intros sp c0 Hc0. discriminate Hc0.
  - intros e sp He c0 Hc0. apply He. exact Hc0.
  - intros w e sp cl _ _ _ _ c0 Hc0. simpl in Hc0. injection Hc0 as <-.
    apply started_cmd_ok.
  - apply map_Forall_empty.
Qed.

Lemma reachable_handles_carry_broker_address_witness :
  emulators s_foo_started !! "foo" = Some foo_started ∧
  last (exec.Env {| exec.Path := "/exepath";
                    exec.Args := ["/exepath"; "arg1"; "arg2"];
                    exec.Env := ["HOME=/root"; "TESTENV_BROKER_ADDRESS=localhost:10000"] |})
    = Some "TESTENV_BROKER_ADDRESS=localhost:10000".
Proof.
  assert (Hlook : emulators s_foo_started !! "foo" = Some foo_started)
    by (vm_compute; reflexivity).
  split; [exact Hlook | ].
  exact (proj2 (reachable_handles_carry_broker_address
           [CallCreateEmulatorSpec dummyReq;
            CallStartEmulator fine {| SpecId.Value := "foo" |}]
           "foo" foo_started _ Hlook eq_refl)).
Defined.

(** ** Records without a spec or a command line *)

(** X17: a record whose spec is nil, or whose spec has no command line,
    cannot be started: from [OFFLINE], [StartEmulator] dereferences the
    nil pointer and panics, for every world, and the registry is as it
    was. *)
Theorem StartEmulator_without_command_panics
    (w : world) (s : server) (specId : SpecId.t) (emu : emulator) :
  emulators s !! SpecId.Value specId = Some emu →
  state emu = OFFLINE →
  spec emu = None ∨ (∃ sp, spec emu = Some sp ∧ EmulatorSpec.CommandLine sp = None) →
  StartEmulator w specId s = (s, Panic).
Proof.
  intros Hlook Hoff Hbare.
  assert (Hrun : start w emu = (emu, Panic)).
  { unfold start, bind, get, deref. simpl. rewrite Hoff. simpl.
    destruct Hbare as [Hsp | (sp & Hsp & Hcl)]; rewrite Hsp; [reflexivity | ].
    rewrite Hcl. reflexivity. }
  unfold StartEmulator. unfold bind at 1. unfold get at 1. simpl.
  rewrite Hlook. unfold bind.
  rewrite (on_emulator_unchanged s _ emu _ _ Hlook Hrun). reflexivity.
Qed.

Lemma StartEmulator_without_command_panics_witness :
  emulators (run [CallCreateEmulatorSpec bareReq] New) !! "bare" = Some (newEmulator None) ∧
  StartEmulator fine {| SpecId.Value := "bare" |} (run [CallCreateEmulatorSpec bareReq] New)
    = (run [CallCreateEmulatorSpec bareReq] New, Panic).
Proof.
  assert (Hlook : emulators (run [CallCreateEmulatorSpec bareReq] New)
                    !! SpecId.Value {| SpecId.Value := "bare" |}
                  = Some (newEmulator None))
    by (vm_compute; reflexivity).
  split; [exact Hlook | ].
  exact (StartEmulator_without_command_panics fine _ {| SpecId.Value := "bare" |}
           (newEmulator None) Hlook eq_refl (or_introl eq_refl)).
Defined.
